(** * career-mvp: the realtime session-protocol clients

    A shallow embedding of the browser clients of the voice-chat front end
    and the properties of their protocol logic:

    - [Base64]: the audio codec path, [arrayBufferToBase64] of
      [RealtimeBrowserClient] against the decoding half of
      [AudioPlayer.playBase64Audio] (src/app/lib/utils/audio.ts);
    - [Simple]: the handler registry of [SimpleRealtimeClient]
      (src/app/lib/openai/simple-realtime-client.ts);
    - [Browser]: [RealtimeBrowserClient] with its sockets, timers, inbound
      demultiplexing, reconnection and teardown.

    Platform functions the sources call but do not define ([btoa], [atob],
    [setTimeout], the [WebSocket] object) are modelled after their
    standards and marked as such. *)

From Stdlib Require Import NArith ZArith QArith String List Lia.
From Stdlib.Strings Require Import Byte Ascii.
From stdpp Require Import gmap strings list.

(** * Base64: the audio payload codec *)

Module Base64.

Local Open Scope N_scope.

(** A JavaScript string is a sequence of UTF-16 code units. *)
Definition JSString := list N.

(** [String.fromCharCode(n)]: one code unit, [n] taken modulo 2^16. *)
Definition fromCharCode (n : N) : JSString := [n mod 65536].

(** [s.charCodeAt(i)]; out of range is NaN, which a typed array stores as 0. *)
Definition charCodeAt (s : JSString) (i : nat) : N := nth i s 0.

(** Storing a number into a [Uint8Array] slot keeps it modulo 256. *)
Definition to_uint8 (n : N) : byte :=
  match Byte.of_N (n mod 256) with
  | Some b => b
  | None => x00
  end.

(** ** The platform codec

    Modelled from the platform standard: [btoa] and [atob] are browser
    built-ins, absent from the repository.  [btoa] is RFC 4648 base64 over
    the string's code units, refusing any unit above 255; [atob] is the
    forgiving-base64 decode of the WHATWG Infra standard. *)

Definition alphabet : list N :=
  map (λ c, N.of_nat (nat_of_ascii c))
      (list_ascii_of_string
         "ABCDEFGHIJKLMNOPQRSTUVWXYZabcdefghijklmnopqrstuvwxyz0123456789+/").

Definition pad_char : N := 61.

(** The code unit of a 6-bit value. *)
Definition sextet_to_char (n : N) : N := nth (N.to_nat n) alphabet 47.

Fixpoint index_of (c : N) (l : list N) : option N :=
  match l with
  | [] => None
  | x :: rest => if c =? x then Some 0 else N.succ <$> index_of c rest
  end.

(** The 6-bit value of a code unit of the alphabet. *)
Definition char_to_sextet (c : N) : option N := index_of c alphabet.

(** The 6-bit groups of a byte sequence: a 24-bit group gives four, a
    trailing byte two (8 bits and 4 zero bits), two trailing bytes three
    (16 bits and 2 zero bits). *)
Fixpoint sextets_of (bytes : list N) : list N :=
  match bytes with
  | [] => []
  | [a] =>
      let g := a * 16 in
      [g / 64; g mod 64]
  | [a; b] =>
      let g := (a * 256 + b) * 4 in
      [g / 4096; (g / 64) mod 64; g mod 64]
  | a :: b :: c :: rest =>
      let g := a * 65536 + b * 256 + c in
      g / 262144 :: (g / 4096) mod 64 :: (g / 64) mod 64 :: g mod 64
        :: sextets_of rest
  end.

Definition padding_of (len : nat) : list N :=
  match (len mod 3)%nat with
  | 1%nat => [pad_char; pad_char]
  | 2%nat => [pad_char]
  | _ => []
  end.

Definition base64_encode (bytes : list N) : JSString :=
  map sextet_to_char (sextets_of bytes) ++ padding_of (length bytes).

(** [btoa(data)]: [None] stands for the InvalidCharacterError thrown when a
    code unit exceeds 255. *)
Definition btoa (data : JSString) : option JSString :=
  if forallb (λ c, c <=? 255) data then Some (base64_encode data) else None.

Definition is_ascii_whitespace (c : N) : bool :=
  (c =? 9) || (c =? 10) || (c =? 12) || (c =? 13) || (c =? 32).

(** Step 2 of the forgiving decode: when the length is a multiple of four,
    one or two trailing [=] are removed. *)
Definition strip_padding (data : JSString) : JSString :=
  if (length data mod 4 =? 0)%nat then
    match rev data with
    | x :: y :: r =>
        if (x =? pad_char) && (y =? pad_char) then rev r
        else if x =? pad_char then rev (y :: r)
        else data
    | [x] => if x =? pad_char then [] else data
    | [] => data
    end
  else data.

(** Steps 5 to 7: a bit buffer takes six bits per code unit and gives
    three bytes whenever it holds 24; 12 or 18 bits left over give one or
    two bytes, the low 4 or 2 bits being dropped. *)
Fixpoint decode_loop (sextets : list N) (buffer : N) (nbits : nat)
    (output : list N) : list N :=
  match sextets with
  | [] =>
      if (nbits =? 12)%nat then output ++ [buffer / 16]
      else if (nbits =? 18)%nat then
        output ++ [(buffer / 4) / 256; (buffer / 4) mod 256]
      else output
  | s :: rest =>
      let buffer := buffer * 64 + s in
      let nbits := (nbits + 6)%nat in
      if (nbits =? 24)%nat then
        decode_loop rest 0 0%nat
          (output ++ [buffer / 65536; (buffer / 256) mod 256; buffer mod 256])
      else decode_loop rest buffer nbits output
  end.

(** [atob(data)]: [None] stands for the InvalidCharacterError thrown on
    input that is not base64. *)
Definition atob (data : JSString) : option JSString :=
  let data := List.filter (λ c, negb (is_ascii_whitespace c)) data in
  let data := strip_padding data in
  if (length data mod 4 =? 1)%nat then None
  else
    match mapM char_to_sextet data with
    | None => None
    | Some sextets => Some (decode_loop sextets 0 0%nat [])
    end.

(** ** The repository's two halves *)

(** [RealtimeBrowserClient.arrayBufferToBase64]: the loop appends one code
    unit per byte to [binary], then [btoa(binary)]. *)
Definition arrayBufferToBase64 (buffer : list byte) : option JSString :=
  let binary :=
    fold_left (λ binary b, binary ++ fromCharCode (Byte.to_N b)) buffer [] in
  btoa binary.

(** The decoding half of [AudioPlayer.playBase64Audio]: [atob], a zeroed
    [Uint8Array] of the string's length, and one indexed store per code
    unit.  The result is the [bytes.buffer] handed on to playback. *)
Definition playBase64Audio_bytes (base64Audio : JSString) : option (list byte) :=
  match atob base64Audio with
  | None => None
  | Some binaryString =>
      let bytes := replicate (length binaryString) x00 in
      Some (fold_left
              (λ bytes i, <[i := to_uint8 (charCodeAt binaryString i)]> bytes)
              (seq 0 (length binaryString)) bytes)
  end.

End Base64.

(** * JavaScript values

    Frames arrive through [JSON.parse], so the handlers see arbitrary
    JavaScript values whatever the TypeScript annotations say. *)

Module JS.

#[warnings="-register-all"]
Inductive Value :=
| Undefined
| Null
| Bool (b : bool)
| Number (q : Q)
| Str (s : string)
| Array (items : list Value)
| Object (props : list (string * Value)).

(** [!v] is [negb (truthy v)]. *)
Definition truthy (v : Value) : bool :=
  match v with
  | Undefined | Null => false
  | Bool b => b
  | Number q => negb (Qeq_bool q 0)
  | Str s => negb (String.eqb s "")
  | Array _ | Object _ => true
  end.

Fixpoint lookup_prop (key : string) (props : list (string * Value)) : Value :=
  match props with
  | [] => Undefined
  | (k, v) :: rest => if String.eqb k key then v else lookup_prop key rest
  end.

(** [v.key]: [None] stands for the TypeError of reading a property of
    [null] or [undefined].  Primitives and arrays have none of the keys the
    clients read ([type], [session], [error], [code], ...). *)
Definition member (v : Value) (key : string) : option Value :=
  match v with
  | Undefined | Null => None
  | Object props => Some (lookup_prop key props)
  | _ => Some Undefined
  end.

(** [v?.key] *)
Definition optional_member (v : Value) (key : string) : Value :=
  match member v key with
  | Some x => x
  | None => Undefined
  end.

(** [v === 'literal'] *)
Definition is_string (v : Value) (literal : string) : bool :=
  match v with
  | Str s => String.eqb s literal
  | _ => false
  end.

(** [a || b] *)
Definition or_else (a b : Value) : Value := if truthy a then a else b.

(** [s.includes(sub)] *)
Fixpoint includes (s sub : string) : bool :=
  String.prefix sub s
  || match s with
     | EmptyString => false
     | String _ rest => includes rest sub
     end.

(** One property written by an object spread: an existing key keeps its
    place and takes the new value, a new key goes last. *)
Fixpoint set_prop (key : string) (v : Value) (props : list (string * Value))
  : list (string * Value) :=
  match props with
  | [] => [(key, v)]
  | (k, x) :: rest =>
      if String.eqb k key then (k, v) :: rest
      else (k, x) :: set_prop key v rest
  end.

(** [{...target, ...source}] *)
Definition spread (target : list (string * Value)) (source : Value)
  : list (string * Value) :=
  match source with
  | Object props => fold_left (λ acc kv, set_prop (fst kv) (snd kv) acc) props target
  | _ => target
  end.

End JS.

(** * SimpleRealtimeClient: the handler registry *)

Module Simple.
Import JS.

Section Registry.

(** Handlers are function objects: opaque, compared by identity. *)
Context {EventHandler : Type} `{EqDecision EventHandler}.

Inductive Action :=
| Invoke (handler : EventHandler) (data : Value)
| ConsoleLog (label : string)
| ConsoleError (label : string).

(** [handlers.indexOf(handler)], -1 when absent. *)
Fixpoint indexOf_from (i : Z) (handlers : list EventHandler)
    (handler : EventHandler) : Z :=
  match handlers with
  | [] => -1
  | h :: rest =>
      if decide (h = handler) then i else indexOf_from (i + 1) rest handler
  end.

Definition indexOf (handlers : list EventHandler) (handler : EventHandler) : Z :=
  indexOf_from 0 handlers handler.

(** [handlers.splice(start, deleteCount)] *)
Definition splice (handlers : list EventHandler) (start deleteCount : nat)
  : list EventHandler :=
  take start handlers ++ drop (start + deleteCount) handlers.

(** [on(event, handler)] *)
Definition on (event : string) (handler : EventHandler)
    (eventHandlers : gmap string (list EventHandler))
  : gmap string (list EventHandler) :=
  let eventHandlers :=
    if decide (is_Some (eventHandlers !! event)) then eventHandlers
    else <[event := []]> eventHandlers in
  match eventHandlers !! event with
  | Some handlers => <[event := handlers ++ [handler]]> eventHandlers
  | None => eventHandlers
  end.

(** [off(event, handler)] *)
Definition off (event : string) (handler : EventHandler)
    (eventHandlers : gmap string (list EventHandler))
  : gmap string (list EventHandler) :=
  match eventHandlers !! event with
  | Some handlers =>
      let index := indexOf handlers handler in
      if (index >? -1)%Z then
        <[event := splice handlers (Z.to_nat index) 1]> eventHandlers
      else eventHandlers
  | None => eventHandlers
  end.

(** [emit(event, data)]: the calls [forEach] makes, in order. *)
Definition emit (event : string) (data : Value)
    (eventHandlers : gmap string (list EventHandler)) : list Action :=
  match eventHandlers !! event with
  | Some handlers => map (λ handler, Invoke handler data) handlers
  | None => []
  end.

(** The registry is keyed by strings; [get] of any other value finds
    nothing. *)
Definition emit_value (event : Value) (data : Value)
    (eventHandlers : gmap string (list EventHandler)) : list Action :=
  match event with
  | Str name => emit name data eventHandlers
  | _ => []
  end.

Definition log (debug : bool) (label : string) : list Action :=
  if debug then [ConsoleLog label] else [].

(** [ws.onmessage]; [parsed] is the outcome of [JSON.parse(event.data)],
    [None] when it throws.  Reading [data.type] of [null] throws as well
    and lands in the same [catch]. *)
Definition onmessage (debug : bool) (parsed : option Value)
    (eventHandlers : gmap string (list EventHandler)) : list Action :=
  match parsed with
  | None => [ConsoleError "Failed to parse message:"]
  | Some data =>
      match member data "type" with
      | None => [ConsoleError "Failed to parse message:"]
      | Some type =>
          log debug "Received event:"
          ++ emit_value type data eventHandlers
          ++ emit "*" data eventHandlers
      end
  end.

(** ** Observations on a registry *)

(** How many times [handler] stands registered for [event]. *)
Definition registrations (event : string) (handler : EventHandler)
    (eventHandlers : gmap string (list EventHandler)) : nat :=
  length (filter (λ h, h = handler) (default [] (eventHandlers !! event))).

(** The handlers a run of actions called, in call order. *)
Definition called (actions : list Action) : list EventHandler :=
  omap (λ a, match a with Invoke h _ => Some h | _ => None end) actions.

(** How many times a run of actions called [handler]. *)
Definition invocations (handler : EventHandler) (actions : list Action) : nat :=
  length (filter (λ h, h = handler) (called actions)).

(** A list without the first occurrence of [handler]. *)
Fixpoint remove_first (handler : EventHandler) (handlers : list EventHandler)
  : list EventHandler :=
  match handlers with
  | [] => []
  | h :: rest =>
      if decide (h = handler) then rest else h :: remove_first handler rest
  end.

(** A series of [on] calls, first to last. *)
Definition on_all (calls : list (string * EventHandler))
    (eventHandlers : gmap string (list EventHandler))
  : gmap string (list EventHandler) :=
  fold_left (λ m c, on (fst c) (snd c) m) calls eventHandlers.

(** The handlers a series of [on] calls names for [event], first to last. *)
Definition named_for (event : string) (calls : list (string * EventHandler))
  : list EventHandler :=
  map snd (filter (λ c, fst c = event) calls).

End Registry.
End Simple.

(** * RealtimeBrowserClient *)

Module Browser.
Import JS.

Inductive ReadyState := CONNECTING | OPEN | CLOSING | CLOSED.

#[global] Instance ReadyState_eq_dec : EqDecision ReadyState.
Proof. solve_decision. Defined.

(** What [ws.send] is given: a string as it is, anything else through
    [JSON.stringify]. *)
Inductive Frame :=
| FrameText (text : string)
| FrameJson (data : Value).

(** What the client does to the world around it, in order of occurrence.
    Console lines keep their leading label. *)
Inductive Effect :=
| Emit (event : Value) (args : list Value)
| Construct (socket : nat) (url : string)
| Transmit (socket : nat) (message : Frame)
| Close (socket : nat) (code : Z) (reason : string)
| SetTimeout (timer : nat) (delay : Z)
| ClearTimeout (timer : nat)
| ConsoleLog (label : string)
| ConsoleError (label : string)
| Resolve (socket : nat)
| Reject (socket : nat) (message : string).

(** The client's fields, and the page it lives in: the sockets constructed
    so far with their [readyState] (a handle is an index into [sockets]),
    the timeouts that are armed, and the effects so far. *)
Record World := {
  apiKey : string;
  model : string;
  debug : bool;
  maxReconnectAttempts : nat;
  reconnectDelay : Z;
  ws : option nat;
  isConnected : bool;
  sessionId : Value;
  reconnectTimer : option nat;
  reconnectAttempts : nat;
  sockets : list ReadyState;
  timers : list (nat * Z);
  nextTimer : nat;
  effects : list Effect
}.

Definition set_ws (x : option nat) (w : World) : World :=
  {| apiKey := apiKey w; model := model w; debug := debug w;
     maxReconnectAttempts := maxReconnectAttempts w;
     reconnectDelay := reconnectDelay w;
     ws := x; isConnected := isConnected w; sessionId := sessionId w;
     reconnectTimer := reconnectTimer w;
     reconnectAttempts := reconnectAttempts w;
     sockets := sockets w; timers := timers w; nextTimer := nextTimer w;
     effects := effects w |}.

Definition set_isConnected (x : bool) (w : World) : World :=
  {| apiKey := apiKey w; model := model w; debug := debug w;
     maxReconnectAttempts := maxReconnectAttempts w;
     reconnectDelay := reconnectDelay w;
     ws := ws w; isConnected := x; sessionId := sessionId w;
     reconnectTimer := reconnectTimer w;
     reconnectAttempts := reconnectAttempts w;
     sockets := sockets w; timers := timers w; nextTimer := nextTimer w;
     effects := effects w |}.

Definition set_sessionId (x : Value) (w : World) : World :=
  {| apiKey := apiKey w; model := model w; debug := debug w;
     maxReconnectAttempts := maxReconnectAttempts w;
     reconnectDelay := reconnectDelay w;
     ws := ws w; isConnected := isConnected w; sessionId := x;
     reconnectTimer := reconnectTimer w;
     reconnectAttempts := reconnectAttempts w;
     sockets := sockets w; timers := timers w; nextTimer := nextTimer w;
     effects := effects w |}.

Definition set_reconnectTimer (x : option nat) (w : World) : World :=
  {| apiKey := apiKey w; model := model w; debug := debug w;
     maxReconnectAttempts := maxReconnectAttempts w;
     reconnectDelay := reconnectDelay w;
     ws := ws w; isConnected := isConnected w; sessionId := sessionId w;
     reconnectTimer := x;
     reconnectAttempts := reconnectAttempts w;
     sockets := sockets w; timers := timers w; nextTimer := nextTimer w;
     effects := effects w |}.

Definition set_reconnectAttempts (x : nat) (w : World) : World :=
  {| apiKey := apiKey w; model := model w; debug := debug w;
     maxReconnectAttempts := maxReconnectAttempts w;
     reconnectDelay := reconnectDelay w;
     ws := ws w; isConnected := isConnected w; sessionId := sessionId w;
     reconnectTimer := reconnectTimer w;
     reconnectAttempts := x;
     sockets := sockets w; timers := timers w; nextTimer := nextTimer w;
     effects := effects w |}.

Definition set_sockets (x : list ReadyState) (w : World) : World :=
  {| apiKey := apiKey w; model := model w; debug := debug w;
     maxReconnectAttempts := maxReconnectAttempts w;
     reconnectDelay := reconnectDelay w;
     ws := ws w; isConnected := isConnected w; sessionId := sessionId w;
     reconnectTimer := reconnectTimer w;
     reconnectAttempts := reconnectAttempts w;
     sockets := x; timers := timers w; nextTimer := nextTimer w;
     effects := effects w |}.

Definition set_timers (x : list (nat * Z)) (next : nat) (w : World) : World :=
  {| apiKey := apiKey w; model := model w; debug := debug w;
     maxReconnectAttempts := maxReconnectAttempts w;
     reconnectDelay := reconnectDelay w;
     ws := ws w; isConnected := isConnected w; sessionId := sessionId w;
     reconnectTimer := reconnectTimer w;
     reconnectAttempts := reconnectAttempts w;
     sockets := sockets w; timers := x; nextTimer := next;
     effects := effects w |}.

Definition set_effects (x : list Effect) (w : World) : World :=
  {| apiKey := apiKey w; model := model w; debug := debug w;
     maxReconnectAttempts := maxReconnectAttempts w;
     reconnectDelay := reconnectDelay w;
     ws := ws w; isConnected := isConnected w; sessionId := sessionId w;
     reconnectTimer := reconnectTimer w;
     reconnectAttempts := reconnectAttempts w;
     sockets := sockets w; timers := timers w; nextTimer := nextTimer w;
     effects := x |}.

(** ** Methods as state transformers that may throw *)

Inductive Completion (A : Type) :=
| Returned (a : A)
| Thrown (error : string).
Arguments Returned {A} a.
Arguments Thrown {A} error.

Definition M (A : Type) : Type := World → Completion A * World.

Definition ret {A} (a : A) : M A := λ w, (Returned a, w).

Definition bind {A B} (c : M A) (k : A → M B) : M B :=
  λ w, match c w with
       | (Returned a, w') => k a w'
       | (Thrown e, w') => (Thrown e, w')
       end.

Declare Scope js_scope.
Delimit Scope js_scope with js.
Notation "x <- c ;; k" := (bind c (λ x, k))
  (at level 100, c at next level, right associativity) : js_scope.
Notation "c ;; k" := (bind c (λ _, k))
  (at level 100, right associativity) : js_scope.
Local Open Scope js_scope.

Definition throw {A} (error : string) : M A := λ w, (Thrown error, w).

(** [try { body } catch { handler }]: what [body] did before throwing stays
    done. *)
Definition try_catch (body handler : M unit) : M unit :=
  λ w, match body w with
       | (Returned a, w') => (Returned a, w')
       | (Thrown _, w') => handler w'
       end.

Definition read {A} (field : World → A) : M A := λ w, (Returned (field w), w).
Definition write (update : World → World) : M unit :=
  λ w, (Returned tt, update w).
Definition perform (e : Effect) : M unit :=
  write (λ w, set_effects (effects w ++ [e]) w).

(** The world a method leaves, whether it returned or threw. *)
Definition exec {A} (c : M A) (w : World) : World := snd (c w).

(** The effects a method adds to a world. *)
Definition effects_of {A} (c : M A) (w : World) : list Effect :=
  drop (length (effects w)) (effects (exec c w)).

(** ** The page: sockets and timers

    Modelled from the platform standard: the [WebSocket] object and
    [setTimeout]/[clearTimeout] are browser built-ins. *)

Definition readyState (socket : nat) (w : World) : ReadyState :=
  default CLOSED (sockets w !! socket).

(** [new WebSocket(url)] *)
Definition new_WebSocket (url : string) : M nat :=
  socket <- read (λ w, length (sockets w)) ;;
  write (λ w, set_sockets (sockets w ++ [CONNECTING]) w) ;;
  perform (Construct socket url) ;;
  ret socket.

(** [socket.send(message)], called on open sockets only *)
Definition WebSocket_send (socket : nat) (message : Frame) : M unit :=
  perform (Transmit socket message).

(** [socket.close(code, reason)]: a socket not yet closing starts to close. *)
Definition WebSocket_close (socket : nat) (code : Z) (reason : string) : M unit :=
  perform (Close socket code reason) ;;
  st <- read (readyState socket) ;;
  match st with
  | CONNECTING | OPEN =>
      write (λ w, set_sockets (<[socket := CLOSING]> (sockets w)) w)
  | CLOSING | CLOSED => ret tt
  end.

(** [setTimeout(callback, delay)]: a fresh handle, armed. *)
Definition setTimeout (delay : Z) : M nat :=
  timer <- read nextTimer ;;
  write (λ w, set_timers (timers w ++ [(timer, delay)]) (S timer) w) ;;
  perform (SetTimeout timer delay) ;;
  ret timer.

(** [clearTimeout(timer)]: the handle is disarmed; nothing happens for one
    that already fired. *)
Definition clearTimeout (timer : nat) : M unit :=
  write (λ w, set_timers (List.filter (λ t, negb (fst t =? timer)%nat) (timers w))
                (nextTimer w) w) ;;
  perform (ClearTimeout timer).

Definition armed (timer : nat) (w : World) : bool :=
  existsb (λ t, (fst t =? timer)%nat) (timers w).

(** ** The class *)

(** [new RealtimeBrowserClient(config)] in a fresh page.  [model] and [debug]
    are the configured values after their defaults. *)
Definition constructor (apiKey model : string) (debug : bool) : World :=
  {| apiKey := apiKey; model := model; debug := debug;
     maxReconnectAttempts := 5; reconnectDelay := 1000;
     ws := None; isConnected := false; sessionId := Null;
     reconnectTimer := None; reconnectAttempts := 0;
     sockets := []; timers := []; nextTimer := 1; effects := [] |}.

Definition log (label : string) : M unit :=
  d <- read debug ;;
  if d then perform (ConsoleLog label) else ret tt.

Definition logError (label : string) : M unit := perform (ConsoleError label).

(** [this.emit(event, ...args)].  The listeners belong to the application
    and are not part of the model: an emission is recorded and returns. *)
Definition emit (event : Value) (args : list Value) : M unit :=
  perform (Emit event args).

(** [send(data)] *)
Definition send (data : Value) : M unit :=
  socket <- read ws ;;
  match socket with
  | None => logError "Cannot send: WebSocket not connected"
  | Some socket =>
      st <- read (readyState socket) ;;
      if bool_decide (st ≠ OPEN) then
        logError "Cannot send: WebSocket not connected"
      else
        let message :=
          match data with
          | Str text => FrameText text
          | _ => FrameJson data
          end in
        WebSocket_send socket message
  end.

(** [sendAuthMessage()] *)
Definition sendAuthMessage : M unit :=
  key <- read apiKey ;;
  let authMessage :=
    Object [("type", Str "session.update");
            ("session", Object [
               ("modalities", Array [Str "text"; Str "audio"]);
               ("instructions", Str "You are a helpful assistant.");
               ("voice", Str "alloy");
               ("input_audio_format", Str "pcm16");
               ("output_audio_format", Str "pcm16");
               ("temperature", Number (8 # 10));
               ("api_key", Str key)])] in
  send authMessage.

(** [connect()]: the promise's executor.  The socket's four handlers are
    [onopen], [onmessage], [onerror] and [onclose] below; the page calls
    them through [deliver].  The query string is the model name, without
    the percent-encoding [URLSearchParams] applies. *)
Definition connect : M unit :=
  m <- read model ;;
  let wsUrl := ("wss://api.openai.com/v1/realtime?model=" ++ m)%string in
  log "Connecting to:" ;;
  socket <- new_WebSocket wsUrl ;;
  write (set_ws (Some socket)).

(** [scheduleReconnect()]; the armed callback is [connect]. *)
Definition scheduleReconnect : M unit :=
  write (λ w, set_reconnectAttempts (S (reconnectAttempts w)) w) ;;
  base <- read reconnectDelay ;;
  attempts <- read reconnectAttempts ;;
  let delay := Z.min (base * 2 ^ (Z.of_nat attempts - 1)) 30000 in
  log "Reconnecting in" ;;
  timer <- setTimeout delay ;;
  write (set_reconnectTimer (Some timer)).

(** [disconnect()] *)
Definition disconnect : M unit :=
  timer <- read reconnectTimer ;;
  match timer with
  | Some t => clearTimeout t ;; write (set_reconnectTimer None)
  | None => ret tt
  end ;;
  socket <- read ws ;;
  match socket with
  | Some s => WebSocket_close s 1000 "Client disconnect" ;; write (set_ws None)
  | None => ret tt
  end ;;
  write (set_isConnected false) ;;
  write (set_sessionId Null).

(** [data.key], throwing the TypeError of a [null] or [undefined] receiver *)
Definition get (data : Value) (key : string) : M Value :=
  match member data key with
  | Some v => ret v
  | None => throw "TypeError"
  end.

(** [handleError(data)] *)
Definition handleError (data : Value) : M unit :=
  e <- get data "error" ;;
  let error := or_else e (Object []) in
  logError "API Error:" ;;
  code <- get error "code" ;;
  if is_string code "invalid_api_key" || is_string code "authentication_error"
  then
    message <- get error "message" ;;
    emit (Str "error")
      [Object [("type", Str "authentication_error");
               ("message", or_else message (Str "Invalid API key"));
               ("code", code)]] ;;
    disconnect
  else emit (Str "error") [error].

(** A [switch] whose every case ends in [break]: the first case label
    strictly equal to the scrutinee runs, else the default. *)
Definition switch (scrutinee : Value) (cases : list (string * M unit))
    (otherwise : M unit) : M unit :=
  match List.find (λ c, is_string scrutinee (fst c)) cases with
  | Some c => snd c
  | None => otherwise
  end.

(** The cases of [handleMessage]; each reads the payload off [data] and
    emits it under the event name on the right. *)
Definition message_cases (data : Value) : list (string * M unit) :=
  let forward (key : string) (event : string) : M unit :=
    payload <- get data key ;; emit (Str event) [payload] in
  let whole (event : string) : M unit := emit (Str event) [data] in
  [ ("error", handleError data);
    ("session.created",
       session <- get data "session" ;;
       write (set_sessionId (optional_member session "id")) ;;
       session <- get data "session" ;;
       emit (Str "session.created") [session]);
    ("session.updated", forward "session" "session.updated");
    ("conversation.item.created", forward "item" "conversation.item.created");
    ("conversation.item.input_audio_transcription.completed",
       whole "transcription.completed");
    ("conversation.item.input_audio_transcription.failed",
       whole "transcription.failed");
    ("response.created", forward "response" "response.created");
    ("response.done", forward "response" "response.done");
    ("response.text.delta", forward "delta" "response.text.delta");
    ("response.text.done", forward "text" "response.text.done");
    ("response.audio_transcript.delta",
       forward "delta" "response.audio_transcript.delta");
    ("response.audio_transcript.done",
       forward "transcript" "response.audio_transcript.done");
    ("response.audio.delta", forward "delta" "response.audio.delta");
    ("response.audio.done", whole "response.audio.done");
    ("input_audio_buffer.speech_started", whole "speech.started");
    ("input_audio_buffer.speech_stopped", whole "speech.stopped");
    ("input_audio_buffer.committed", whole "input_audio_buffer.committed");
    ("input_audio_buffer.cleared", whole "input_audio_buffer.cleared");
    ("rate_limits.updated", forward "rate_limits" "rate_limits.updated") ].

(** [handleMessage(data)] *)
Definition handleMessage (data : Value) : M unit :=
  eventType <- get data "type" ;;
  if negb (truthy eventType) then
    logError "Received message without type:"
  else
    log "Received event:" ;;
    switch eventType (message_cases data) (emit eventType [data]).

(** The code units of a base64 string as a string value. *)
Definition string_of_units (units : Base64.JSString) : string :=
  string_of_list_ascii (map ascii_of_N units).

(** [appendInputAudio(audioData)] *)
Definition appendInputAudio (audioData : list byte) : M unit :=
  match Base64.arrayBufferToBase64 audioData with
  | None => throw "InvalidCharacterError"
  | Some base64Audio =>
      send (Object [("type", Str "input_audio_buffer.append");
                    ("audio", Str (string_of_units base64Audio))])
  end.

Definition updateSession (session : Value) : M unit :=
  send (Object [("type", Str "session.update"); ("session", session)]).

Definition commitInputAudio : M unit :=
  send (Object [("type", Str "input_audio_buffer.commit")]).

Definition clearInputAudio : M unit :=
  send (Object [("type", Str "input_audio_buffer.clear")]).

(** [createResponse(options)]; [Undefined] for a call without argument *)
Definition createResponse (options : Value) : M unit :=
  send (Object (spread [("type", Str "response.create")] options)).

Definition cancelResponse : M unit :=
  send (Object [("type", Str "response.cancel")]).

Definition getConnectionStatus (w : World) : bool := isConnected w.

Definition getSessionId (w : World) : Value := sessionId w.

(** ** The socket's handlers, as [connect] installs them *)

(** [ws.onopen] *)
Definition onopen (socket : nat) : M unit :=
  log "WebSocket connection opened" ;;
  write (set_isConnected true) ;;
  write (set_reconnectAttempts 0) ;;
  sendAuthMessage ;;
  emit (Str "connected") [] ;;
  perform (Resolve socket).

(** [ws.onmessage]; [parsed] is the outcome of [JSON.parse(event.data)],
    [None] when it throws. *)
Definition onmessage (parsed : option Value) : M unit :=
  try_catch
    (match parsed with
     | None => throw "SyntaxError"
     | Some data => handleMessage data
     end)
    (logError "Failed to parse message:").

(** [ws.onerror] *)
Definition onerror (error : Value) : M unit :=
  logError "WebSocket error:" ;;
  emit (Str "error")
    [Object [("type", Str "websocket_error");
             ("message", Str "WebSocket connection error");
             ("error", error)]].

(** [ws.onclose]; [code] and [reason] are those of the close event. *)
Definition onclose (socket : nat) (code : Z) (reason : string) : M unit :=
  log "WebSocket closed:" ;;
  write (set_isConnected false) ;;
  emit (Str "disconnected")
    [Object [("code", Number (inject_Z code)); ("reason", Str reason)]] ;;
  if (code =? 1008)%Z || includes reason "auth" then
    emit (Str "error")
      [Object [("type", Str "authentication_error");
               ("message",
                  Str "Authentication failed. Please check your API key.");
               ("code", Number (inject_Z code));
               ("reason", Str reason)]] ;;
    perform (Reject socket "Authentication failed")
  else
    attempts <- read reconnectAttempts ;;
    limit <- read maxReconnectAttempts ;;
    if negb (code =? 1000)%Z && (attempts <? limit)%nat then scheduleReconnect
    else ret tt.

(** ** What can happen to a client *)

Inductive Event :=
(* the application calls a method *)
| Call_connect
| Call_disconnect
| Call_send (data : Value)
| Call_updateSession (session : Value)
| Call_appendInputAudio (audioData : list byte)
| Call_commitInputAudio
| Call_clearInputAudio
| Call_createResponse (options : Value)
| Call_cancelResponse
(* the page calls a handler *)
| SocketOpens (socket : nat)
| SocketMessage (socket : nat) (parsed : option Value)
| SocketError (socket : nat) (error : Value)
| SocketCloses (socket : nat) (code : Z) (reason : string)
| TimerFires (timer : nat).

(** One turn of the event loop.  The page fires a socket's events only in
    the states that allow them and a timer only while it is armed; an
    event out of turn is no event.  A close event carries whatever code
    the page reports, also for a socket the client itself closed.  The
    timer's callback is [connect()]; the console line of its [.catch], on
    a later rejection, is left out. *)
Definition deliver (e : Event) : M unit :=
  match e with
  | Call_connect => connect
  | Call_disconnect => disconnect
  | Call_send data => send data
  | Call_updateSession session => updateSession session
  | Call_appendInputAudio audioData => appendInputAudio audioData
  | Call_commitInputAudio => commitInputAudio
  | Call_clearInputAudio => clearInputAudio
  | Call_createResponse options => createResponse options
  | Call_cancelResponse => cancelResponse
  | SocketOpens socket =>
      st <- read (λ w, sockets w !! socket) ;;
      match st with
      | Some CONNECTING =>
          write (λ w, set_sockets (<[socket := OPEN]> (sockets w)) w) ;;
          onopen socket
      | _ => ret tt
      end
  | SocketMessage socket parsed =>
      st <- read (λ w, sockets w !! socket) ;;
      match st with
      | Some OPEN | Some CLOSING => onmessage parsed
      | _ => ret tt
      end
  | SocketError socket error =>
      st <- read (λ w, sockets w !! socket) ;;
      match st with
      | Some CONNECTING | Some OPEN | Some CLOSING => onerror error
      | _ => ret tt
      end
  | SocketCloses socket code reason =>
      st <- read (λ w, sockets w !! socket) ;;
      match st with
      | Some CONNECTING | Some OPEN | Some CLOSING =>
          write (λ w, set_sockets (<[socket := CLOSED]> (sockets w)) w) ;;
          onclose socket code reason
      | _ => ret tt
      end
  | TimerFires timer =>
      a <- read (armed timer) ;;
      if a then
        write (λ w, set_timers
                      (List.filter (λ t, negb (fst t =? timer)%nat) (timers w))
                      (nextTimer w) w) ;;
        connect
      else ret tt
  end.

Fixpoint run (events : list Event) (w : World) : World :=
  match events with
  | [] => w
  | e :: rest => run rest (exec (deliver e) w)
  end.

(** ** Observations on a client *)

(** The delays of the timeouts set, oldest first. *)
Definition scheduled_delays (es : list Effect) : list Z :=
  omap (λ e, match e with SetTimeout _ delay => Some delay | _ => None end) es.

(** The frames handed to a socket, oldest first. *)
Definition transmitted (es : list Effect) : list Frame :=
  omap (λ e, match e with Transmit _ message => Some message | _ => None end) es.

(** The events emitted, with their arguments, oldest first. *)
Definition emitted (es : list Effect) : list (Value * list Value) :=
  omap (λ e, match e with Emit event args => Some (event, args) | _ => None end) es.

(** Neither arms a timeout nor opens a socket. *)
Definition harmless (e : Effect) : bool :=
  match e with
  | SetTimeout _ _ | Construct _ _ => false
  | _ => true
  end.

(** The guard of [send] fails: no socket, or one that is not open. *)
Definition not_open (w : World) : Prop :=
  match ws w with
  | None => True
  | Some socket => readyState socket w ≠ OPEN
  end.

(** The calls that issue a command to the service. *)
Definition is_command (e : Event) : bool :=
  match e with
  | Call_send _ | Call_updateSession _ | Call_appendInputAudio _
  | Call_commitInputAudio | Call_clearInputAudio | Call_createResponse _
  | Call_cancelResponse => true
  | _ => false
  end.

(** A failure reaches the caller: the call throws, an event is emitted, or
    the pending [connect()] promise is rejected.  A console line reaches
    nobody. *)
Definition signalled {A} (c : M A) (w : World) : Prop :=
  (∃ error, fst (c w) = Thrown error)
  ∨ (∃ event args, Emit event args ∈ effects_of c w)
  ∨ (∃ socket message, Reject socket message ∈ effects_of c w).

(** The case labels of [handleMessage]. *)
Definition known_event_types : list string := map fst (message_cases Undefined).

(** A close that [onclose] takes for a transient drop: neither the normal
    closure 1000 nor what it reads as an authentication failure. *)
Definition transient (code : Z) (reason : string) : bool :=
  negb (code =? 1008)%Z && negb (includes reason "auth")
  && negb (code =? 1000)%Z.

(** Every armed timeout is the one the client holds in [reconnectTimer]. *)
Definition timers_tracked (w : World) : Prop :=
  ∀ t, t ∈ timers w → reconnectTimer w = Some (fst t).


(** A method relates every world to the one it leaves. *)
Definition preserves (P : World → World → Prop) {A} (c : M A) : Prop :=
  ∀ w, P w (exec c w).

(** With no timeout armed, none becomes armed, no socket is constructed
    and no timeout is set. *)
Definition stays_quiet (w w' : World) : Prop :=
  timers w = [] →
  timers w' = []
  ∧ length (sockets w') = length (sockets w)
  ∧ ∃ added, effects w' = effects w ++ added
             ∧ forallb harmless added = true.

(** The attempt counter stays within the configured maximum. *)
Definition stays_bounded (w w' : World) : Prop :=
  maxReconnectAttempts w' = maxReconnectAttempts w
  ∧ (reconnectAttempts w ≤ maxReconnectAttempts w →
     reconnectAttempts w' ≤ maxReconnectAttempts w').

(** ** Further observations *)

(** The code units of a string value. *)
Definition units_of_string (s : string) : Base64.JSString :=
  map N_of_ascii (list_ascii_of_string s).

(** The two error codes [handleError] reads as an authentication failure. *)
Definition is_auth_code (code : Value) : bool :=
  is_string code "invalid_api_key" || is_string code "authentication_error".

(** The event name under which a frame of a given type leaves
    [handleMessage]: four upstream names are shortened, all others kept. *)
Definition emitted_as (type : Value) : Value :=
  if is_string type "conversation.item.input_audio_transcription.completed"
  then Str "transcription.completed"
  else if is_string type "conversation.item.input_audio_transcription.failed"
  then Str "transcription.failed"
  else if is_string type "input_audio_buffer.speech_started"
  then Str "speech.started"
  else if is_string type "input_audio_buffer.speech_stopped"
  then Str "speech.stopped"
  else type.

(** [key in object] *)
Fixpoint has_prop (key : string) (props : list (string * Value)) : bool :=
  match props with
  | [] => false
  | (k, _) :: rest => String.eqb k key || has_prop key rest
  end.

(** The effects added are all of one kind. *)
Definition adds_only (ok : Effect → bool) (w w' : World) : Prop :=
  ∃ added, effects w' = effects w ++ added ∧ forallb ok added = true.

Definition is_transmit (e : Effect) : bool :=
  match e with
  | Transmit _ _ => true
  | _ => false
  end.

Definition is_console_log (e : Effect) : bool :=
  match e with
  | ConsoleLog _ => true
  | _ => false
  end.

(** Nothing is handed to a socket. *)
Definition writes_nothing : World → World → Prop :=
  adds_only (λ e, negb (is_transmit e)).

(** With [debug] off, no [console.log] line is written. *)
Definition stays_silent (w w' : World) : Prop :=
  debug w' = debug w
  ∧ (debug w = false → adds_only (λ e, negb (is_console_log e)) w w').

(** The session id is left alone. *)
Definition keeps_session (w w' : World) : Prop := sessionId w' = sessionId w.

(** The events that may change the session id: an inbound frame and
    [disconnect()]. *)
Definition touches_session (e : Event) : bool :=
  match e with
  | Call_disconnect | SocketMessage _ _ => true
  | _ => false
  end.

End Browser.

(** * Properties *)

(** ** Shared list facts *)

(** Induction that peels three elements at a time, the shape of a codec
    working on 24-bit groups. *)
Lemma list_ind3 {A} (P : list A → Prop) :
  P [] →
  (∀ a, P [a]) →
  (∀ a b, P [a; b]) →
  (∀ a b c l, P l → P (a :: b :: c :: l)) →
  ∀ l, P l.
Proof.
  intros H0 H1 H2 H3 l.
  assert (H : P l ∧ (∀ a, P (a :: l)) ∧ (∀ a b, P (a :: b :: l))).
  { induction l as [|x l (IH0 & IH1 & IH2)].
    - auto.
    - repeat split; auto. }
  apply H.
Qed.

(** A boolean check run over [0 .. k-1] settles the property below [k]. *)
Lemma N_forall_below (P : N → bool) (k : nat) :
  forallb P (map N.of_nat (seq 0 k)) = true →
  ∀ n, (n < N.of_nat k)%N → P n = true.
Proof.
  intros Hall n Hn.
  rewrite forallb_forall in Hall. apply Hall.
  apply in_map_iff. exists (N.to_nat n). split; [lia |].
  apply in_seq. lia.
Qed.

(** ** The codec round trip *)

Section Base64Facts.
Import Base64.
Local Open Scope N_scope.

Ltac nlia := zify; Z.to_euclidean_division_equations; lia.

Lemma binary_of_buffer (buffer : list byte) (acc : JSString) :
  fold_left (λ binary b, binary ++ fromCharCode (Byte.to_N b)) buffer acc
  = acc ++ map Byte.to_N buffer.
Proof.
  revert acc. induction buffer as [|b buffer IH]; intros acc; simpl.
  - by rewrite app_nil_r.
  - rewrite IH. unfold fromCharCode.
    pose proof (Byte.to_N_bounded b) as Hb.
    rewrite N.mod_small by lia. by rewrite <- app_assoc.
Qed.

Lemma buffer_units_small (buffer : list byte) :
  Forall (λ c, c <= 255) (map Byte.to_N buffer).
Proof.
  induction buffer; constructor; auto using Byte.to_N_bounded.
Qed.

Lemma sextets_of_bounded (bytes : list N) :
  Forall (λ c, c <= 255) bytes → Forall (λ s, s < 64) (sextets_of bytes).
Proof.
  induction bytes as [|a|a b|a b c l IH] using list_ind3; intros Hb.
  - constructor.
  - inversion_clear Hb. simpl. repeat constructor; nlia.
  - inversion_clear Hb as [|? ? Ha Hb']. inversion_clear Hb'.
    simpl. repeat constructor; nlia.
  - inversion_clear Hb as [|? ? Ha Hb1]. inversion_clear Hb1 as [|? ? Hb2 Hb3].
    inversion_clear Hb3 as [|? ? Hc Hl].
    change (sextets_of (a :: b :: c :: l)) with
      (let g := a * 65536 + b * 256 + c in
       g / 262144 :: (g / 4096) mod 64 :: (g / 64) mod 64 :: g mod 64
         :: sextets_of l).
    cbv zeta. repeat (constructor; [nlia |]). by apply IH.
Qed.

Lemma char_to_sextet_to_char (n : N) :
  n < 64 → char_to_sextet (sextet_to_char n) = Some n.
Proof.
  intros Hn.
  pose proof (N_forall_below
    (λ n, bool_decide (char_to_sextet (sextet_to_char n) = Some n)) 64) as H.
  apply (bool_decide_unpack _). apply Is_true_true.
  apply H; [by vm_compute | exact Hn].
Qed.

Lemma sextet_to_char_plain (n : N) :
  n < 64 →
  is_ascii_whitespace (sextet_to_char n) = false ∧ sextet_to_char n ≠ pad_char.
Proof.
  intros Hn.
  pose proof (N_forall_below
    (λ n, negb (is_ascii_whitespace (sextet_to_char n))
          && negb (sextet_to_char n =? pad_char)) 64) as H.
  specialize (H eq_refl n Hn). apply andb_true_iff in H as [H1 H2].
  apply negb_true_iff in H1, H2. by apply N.eqb_neq in H2.
Qed.

Lemma length_sextets_of (bytes : list N) :
  length (sextets_of bytes)
  = (4 * (length bytes / 3)
     + match length bytes mod 3 with 0 => 0 | 1 => 2 | _ => 3 end)%nat.
Proof.
  induction bytes as [|a|a b|a b c l IH] using list_ind3; try reflexivity.
  change (length (sextets_of (a :: b :: c :: l)))
    with (4 + length (sextets_of l))%nat.
  rewrite IH.
  change (length (a :: b :: c :: l)) with (1 * 3 + length l)%nat.
  rewrite (Nat.add_comm (1 * 3)), Nat.div_add, Nat.Div0.mod_add by lia. lia.
Qed.

Lemma length_base64_encode (bytes : list N) :
  (length (base64_encode bytes) mod 4 = 0)%nat.
Proof.
  unfold base64_encode, padding_of.
  rewrite length_app, length_map, length_sextets_of.
  pose proof (Nat.mod_upper_bound (length bytes) 3) as Hr.
  destruct (length bytes mod 3)%nat as [|[|[|r]]]; simpl length; try lia.
  - rewrite !Nat.add_0_r, Nat.mul_comm. apply Nat.Div0.mod_mul.
  - replace (4 * (length bytes / 3) + 2 + 2)%nat
      with ((length bytes / 3 + 1) * 4)%nat by lia.
    apply Nat.Div0.mod_mul.
  - replace (4 * (length bytes / 3) + 3 + 1)%nat
      with ((length bytes / 3 + 1) * 4)%nat by lia.
    apply Nat.Div0.mod_mul.
Qed.

Lemma length_body_not_1 (bytes : list N) :
  (length (sextets_of bytes) mod 4 ≠ 1)%nat.
Proof.
  rewrite length_sextets_of.
  rewrite Nat.add_comm, Nat.mul_comm, Nat.Div0.mod_add.
  destruct (length bytes mod 3)%nat as [|[|r]]; by cbn.
Qed.

(** Padding comes off an encoder's output and leaves its body. *)
Lemma strip_padding_body (body pad : JSString) :
  Forall (λ c, c ≠ pad_char) body →
  (length (body ++ pad) mod 4 = 0)%nat →
  pad = [] ∨ pad = [pad_char] ∨ pad = [pad_char; pad_char] →
  strip_padding (body ++ pad) = body.
Proof.
  intros Hbody Hlen Hpad. unfold strip_padding.
  rewrite Hlen. cbn [Nat.eqb]. rewrite rev_app_distr.
  apply Forall_rev in Hbody. fold (@reverse N) in *.
  destruct Hpad as [-> | [-> | ->]]; cbn [rev app].
  - rewrite app_nil_r.
    destruct (rev body) as [|x [|y r]] eqn:Hrev; [done | |].
    + inversion_clear Hbody as [|? ? Hx _].
      apply N.eqb_neq in Hx. by rewrite Hx.
    + inversion_clear Hbody as [|? ? Hx _].
      apply N.eqb_neq in Hx. by rewrite Hx.
  - destruct (rev body) as [|y r] eqn:Hrev.
    + cbn. rewrite <- (rev_involutive body), Hrev. done.
    + cbn [app]. inversion_clear Hbody as [|? ? Hy _].
      apply N.eqb_neq in Hy. rewrite Hy, N.eqb_refl. cbn [andb].
      change (rev r ++ [y]) with (rev (y :: r)).
      by rewrite <- Hrev, rev_involutive.
  - cbn [app]. rewrite N.eqb_refl. cbn [andb]. apply rev_involutive.
Qed.

(** The bit buffer gives back the bytes whose 6-bit groups it is fed. *)
Lemma decode_loop_sextets_of (bytes : list N) :
  Forall (λ c, c <= 255) bytes →
  ∀ output, decode_loop (sextets_of bytes) 0 0%nat output = output ++ bytes.
Proof.
  induction bytes as [|a|a b|a b c l IH] using list_ind3; intros Hb output.
  - cbn. by rewrite app_nil_r.
  - inversion_clear Hb as [|? ? Ha _]. cbn -[N.div N.modulo N.mul N.add].
    do 2 f_equal. nlia.
  - inversion_clear Hb as [|? ? Ha Hb']. inversion_clear Hb' as [|? ? Hb _].
    cbn -[N.div N.modulo N.mul N.add].
    do 2 f_equal; [nlia | f_equal; nlia].
  - inversion_clear Hb as [|? ? Ha Hb1]. inversion_clear Hb1 as [|? ? Hb Hb2].
    inversion_clear Hb2 as [|? ? Hc Hl].
    change (sextets_of (a :: b :: c :: l)) with
      (let g := a * 65536 + b * 256 + c in
       g / 262144 :: (g / 4096) mod 64 :: (g / 64) mod 64 :: g mod 64
         :: sextets_of l).
    cbv zeta. cbn -[N.div N.modulo N.mul N.add sextets_of].
    rewrite IH by done. rewrite <- app_assoc. f_equal.
    set (g := a * 65536 + b * 256 + c).
    assert (Hg : (((0 * 64 + g / 262144) * 64 + (g / 4096) mod 64) * 64
                  + (g / 64) mod 64) * 64 + g mod 64 = g) by (subst g; nlia).
    rewrite Hg. subst g. cbn [app].
    f_equal; [nlia | f_equal; [nlia | f_equal; nlia]].
Qed.

Lemma filter_plain (body pad : JSString) :
  Forall (λ c, is_ascii_whitespace c = false) (body ++ pad) →
  List.filter (λ c, negb (is_ascii_whitespace c)) (body ++ pad) = body ++ pad.
Proof.
  induction (body ++ pad) as [|c l IH]; intros Hall; [done |].
  inversion_clear Hall as [|? ? Hc Hl]. cbn. rewrite Hc. cbn.
  f_equal. by apply IH.
Qed.

(** The indexed stores of the playback loop fill the typed array with the
    converted code units, in order. *)
Lemma uint8_store_loop (s : JSString) :
  fold_left (λ bytes i, <[i := to_uint8 (charCodeAt s i)]> bytes)
    (seq 0 (length s)) (replicate (length s) x00)
  = map to_uint8 s.
Proof.
  assert (H : ∀ k, (k ≤ length s)%nat →
    fold_left (λ bytes i, <[i := to_uint8 (charCodeAt s i)]> bytes)
      (seq 0 k) (replicate (length s) x00)
    = map to_uint8 (take k s) ++ replicate (length s - k) x00).
  { induction k as [|k IH]; intros Hk.
    - cbn. by rewrite Nat.sub_0_r.
    - rewrite seq_S, fold_left_app, IH by lia. cbn [fold_left Nat.add].
      destruct (lookup_lt_is_Some_2 s k ltac:(lia)) as [x Hx].
      rewrite (take_S_r _ _ _ Hx), map_app. cbn [map].
      replace (length s - k)%nat with (S (length s - S k)) by lia.
      cbn [replicate].
      rewrite insert_app_r_alt by (rewrite length_map, length_take; lia).
      rewrite length_map, length_take.
      replace (k - k `min` length s)%nat with 0%nat by lia.
      cbn [insert list_insert]. rewrite <- app_assoc. cbn [app].
      do 3 f_equal. unfold charCodeAt.
      by rewrite (nth_lookup_Some _ _ _ _ Hx). }
  rewrite H by lia. rewrite firstn_all, Nat.sub_diag. cbn. apply app_nil_r.
Qed.

Lemma to_uint8_to_N (b : byte) : to_uint8 (Byte.to_N b) = b.
Proof.
  unfold to_uint8. pose proof (Byte.to_N_bounded b).
  rewrite N.mod_small by lia. by rewrite Byte.of_to_N.
Qed.

Lemma btoa_binary (buffer : list byte) :
  arrayBufferToBase64 buffer = Some (base64_encode (map Byte.to_N buffer)).
Proof.
  unfold arrayBufferToBase64, btoa. rewrite binary_of_buffer. cbn [app].
  replace (forallb _ _) with true; [done |].
  symmetry. apply forallb_forall. intros c Hc.
  pose proof (buffer_units_small buffer) as Hall.
  rewrite List.Forall_forall in Hall. apply N.leb_le. by apply Hall.
Qed.

Lemma atob_base64_encode (bytes : list N) :
  Forall (λ c, c <= 255) bytes → atob (base64_encode bytes) = Some bytes.
Proof.
  intros Hb. unfold atob.
  pose proof (sextets_of_bounded bytes Hb) as Hs.
  assert (Hpad : padding_of (length bytes) = []
                 ∨ padding_of (length bytes) = [pad_char]
                 ∨ padding_of (length bytes) = [pad_char; pad_char]).
  { unfold padding_of. destruct (length bytes mod 3)%nat as [|[|[|r]]]; auto. }
  assert (Hplain : Forall (λ c, is_ascii_whitespace c = false)
                     (base64_encode bytes)).
  { unfold base64_encode. apply Forall_app. split.
    - apply Forall_map. eapply Forall_impl; [exact Hs |].
      intros n Hn. by apply sextet_to_char_plain.
    - destruct Hpad as [-> | [-> | ->]]; repeat constructor. }
  unfold base64_encode in *. rewrite filter_plain by done.
  rewrite strip_padding_body; [| | apply length_base64_encode | done].
  - rewrite length_map.
    destruct (length (sextets_of bytes) mod 4 =? 1)%nat eqn:E.
    { apply Nat.eqb_eq in E. by destruct (length_body_not_1 bytes). }
    change (map sextet_to_char (sextets_of bytes))
      with (sextet_to_char <$> sextets_of bytes).
    rewrite (mapM_fmap_Forall_Some char_to_sextet sextet_to_char).
    + by rewrite decode_loop_sextets_of.
    + eapply Forall_impl; [exact Hs |]. intros n Hn.
      by apply char_to_sextet_to_char.
  - apply Forall_map. eapply Forall_impl; [exact Hs |].
    intros n Hn. by apply sextet_to_char_plain.
Qed.

(** C7. Base64 round trip: for every byte buffer, of any length,
    [arrayBufferToBase64] returns a string (it never throws), and the
    decoding done on playback ([atob] and the per-unit stores into a
    [Uint8Array]) turns that string back into exactly the original bytes. *)
Theorem base64_round_trip (buffer : list byte) :
  ∃ encoded,
    arrayBufferToBase64 buffer = Some encoded
    ∧ playBase64Audio_bytes encoded = Some buffer.
Proof.
  exists (base64_encode (map Byte.to_N buffer)). split.
  - apply btoa_binary.
  - unfold playBase64Audio_bytes.
    rewrite atob_base64_encode by apply buffer_units_small.
    rewrite uint8_store_loop, map_map. f_equal.
    induction buffer as [|b buffer IH]; [done |].
    cbn. by rewrite to_uint8_to_N, IH.
Qed.

(** The lengths the specification names: 0, 1, and lengths that are not a
    multiple of three. *)
Example base64_round_trip_lengths :
  Forall (λ buffer,
            (arrayBufferToBase64 buffer ≫= playBase64Audio_bytes) = Some buffer)
    [ []; [x41]; [xff; x00]; [x4d; x61; x6e]; [x00; xff; x80; x7f];
      [x01; x02; x03; x04; x05] ].
Proof. repeat constructor. Qed.

Example arrayBufferToBase64_Man :
  arrayBufferToBase64 [x4d; x61; x6e] = Some [84; 87; 70; 117]
  ∧ arrayBufferToBase64 [x4d; x61] = Some [84; 87; 69; 61]
  ∧ arrayBufferToBase64 [x4d] = Some [84; 81; 61; 61].
Proof. repeat split. Qed.
End Base64Facts.

(** ** The handler registry of SimpleRealtimeClient *)

Section RegistryFacts.
Import JS Simple.
Context {EventHandler : Type} `{EqDecision EventHandler}.
Implicit Types (m : gmap string (list EventHandler)) (h : EventHandler).
Implicit Types (l : list EventHandler) (e : string) (d : Value).

Lemma indexOf_from_absent l h i : h ∉ l → indexOf_from i l h = (-1)%Z.
Proof.
  revert i. induction l as [|x l IH]; intros i Hn; [done |].
  cbn. apply not_elem_of_cons in Hn as [Hx Hl].
  destruct (decide (x = h)); [congruence | by apply IH].
Qed.

Lemma indexOf_from_present l h i :
  h ∈ l →
  ∃ n, indexOf_from i l h = (i + Z.of_nat n)%Z
       ∧ splice l n 1 = remove_first h l.
Proof.
  revert i. induction l as [|x l IH]; intros i Hin.
  - by apply elem_of_nil in Hin.
  - cbn. destruct (decide (x = h)) as [-> | Hne].
    + exists 0. split; [lia |]. unfold splice. cbn. by rewrite drop_0.
    + apply elem_of_cons in Hin as [-> | Hin]; [done |].
      destruct (IH (i + 1)%Z Hin) as (n & Hidx & Hsp).
      exists (S n). split; [lia |].
      unfold splice in *. cbn. by rewrite Hsp.
Qed.

(** What [off] does to the registry, with [indexOf] and [splice] read as
    "drop the first occurrence". *)
Lemma off_spec e h m :
  off e h m
  = match m !! e with
    | Some l => if decide (h ∈ l) then <[e := remove_first h l]> m else m
    | None => m
    end.
Proof.
  unfold off, indexOf. destruct (m !! e) as [l|]; [| done].
  destruct (decide (h ∈ l)) as [Hin | Hn].
  - destruct (indexOf_from_present l h 0 Hin) as (n & -> & Hsp).
    destruct (Z.gtb_spec (0 + Z.of_nat n) (-1)) as [_ | Hlt]; [| lia].
    by rewrite Z.add_0_l, Nat2Z.id, Hsp.
  - by rewrite indexOf_from_absent.
Qed.

Lemma count_remove_first l h h' :
  length (filter (λ x, x = h') (remove_first h l))
  = if decide (h = h' ∧ h ∈ l)
    then pred (length (filter (λ x, x = h') l))
    else length (filter (λ x, x = h') l).
Proof.
  induction l as [|x l IH]; cbn [remove_first].
  - rewrite decide_False; [done |]. intros [_ Hd]. by apply elem_of_nil in Hd.
  - rewrite (filter_cons (λ y, y = h') x l).
    destruct (decide (x = h)) as [-> | Hne].
    + destruct (decide (h = h')) as [-> | Hne'].
      * rewrite decide_True by (split; [done | left]). done.
      * rewrite decide_False by (by intros [? _]). done.
    + rewrite (filter_cons (λ y, y = h') x (remove_first h l)).
      assert (Hiff : h = h' ∧ h ∈ x :: l ↔ h = h' ∧ h ∈ l).
      { split; intros [Heq Hin]; (split; [done |]).
        - apply elem_of_cons in Hin as [-> | Hin]; [done | exact Hin].
        - by right. }
      rewrite (decide_ext _ _ _ _ Hiff).
      destruct (decide (x = h')) as [-> | Hne']; cbn [length]; rewrite IH.
      * rewrite !decide_False; [done | |]; intros [? _]; congruence.
      * done.
Qed.

Lemma called_emit e d m : called (emit e d m) = default [] (m !! e).
Proof.
  unfold emit, called. destruct (m !! e) as [l|]; [| done]. cbn.
  induction l as [|x l IH]; [done |]. cbn. by rewrite IH.
Qed.

Lemma called_app (a b : list (@Action EventHandler)) :
  called (a ++ b) = called a ++ called b.
Proof. apply omap_app. Qed.

(** What [ws.onmessage] calls for a frame with a string type: the type's
    handlers, then the wildcard's. *)
Lemma called_onmessage (dbg : bool) d t m :
  member d "type" = Some (Str t) →
  called (onmessage dbg (Some d) m)
  = default [] (m !! t) ++ default [] (m !! "*").
Proof.
  intros Ht. unfold onmessage. rewrite Ht, !called_app.
  cbn [emit_value]. rewrite !called_emit. by destruct dbg.
Qed.

Lemma invocations_emit e h d m :
  invocations h (emit e d m) = registrations e h m.
Proof. unfold invocations, registrations. by rewrite called_emit. Qed.

Lemma registered_elem e h m l :
  m !! e = Some l → 0 < registrations e h m → h ∈ l.
Proof.
  unfold registrations. intros -> Hn. cbn in Hn.
  destruct (filter (λ x, x = h) l) as [|y r] eqn:Hf; [cbn in Hn; lia |].
  assert (Hy : y ∈ filter (λ x, x = h) l) by (rewrite Hf; left).
  apply list_elem_of_filter in Hy as [-> ?]. done.
Qed.

Lemma on_lookup e h m :
  on e h m = <[e := default [] (m !! e) ++ [h]]> m.
Proof.
  unfold on. destruct (m !! e) as [l|] eqn:Hl.
  - rewrite decide_True by eauto. by rewrite Hl.
  - rewrite decide_False by (by intros [? ?]).
    rewrite lookup_insert_eq. cbn. by rewrite insert_insert_eq.
Qed.

Lemma emit_on e e' h d m :
  emit e' d (on e h m)
  = if decide (e = e') then emit e' d m ++ [Invoke h d] else emit e' d m.
Proof.
  rewrite on_lookup. unfold emit. case_decide as He.
  - subst e'. rewrite lookup_insert_eq.
    destruct (m !! e) as [l|]; cbn; [| done]. by rewrite map_app.
  - by rewrite lookup_insert_ne.
Qed.

Lemma emit_on_all calls e d m :
  emit e d (on_all calls m)
  = emit e d m ++ map (λ h, Invoke h d) (named_for e calls).
Proof.
  revert m. induction calls as [|[e' h] calls IH]; intros m; cbn.
  - by rewrite app_nil_r.
  - unfold on_all in IH. rewrite IH, emit_on. unfold named_for.
    case_decide as He.
    + subst e'. cbn. by rewrite <- app_assoc.
    + done.
Qed.

(** C10. Unsubscription removes exactly one registration: when [handler]
    stands registered [n > 0] times for [event], one [off(event, handler)]
    leaves it called [n - 1] times per emission, takes away its earliest
    registration and nothing else (the other handlers keep their calls and
    their order); [off] of a handler or event that is not registered
    changes nothing; and handlers are called in registration order: every
    [on] appends to the end of the calls made for its event. *)
Theorem off_removes_one_registration m e h d n :
  registrations e h m = n →
  0 < n →
  invocations h (emit e d (off e h m)) = n - 1
  ∧ called (emit e d (off e h m)) = remove_first h (called (emit e d m))
  ∧ (∀ h', h' ≠ h →
       invocations h' (emit e d (off e h m)) = invocations h' (emit e d m))
  ∧ (∀ e', e' ≠ e → emit e' d (off e h m) = emit e' d m)
  ∧ (∀ e' h', registrations e' h' m = 0 → off e' h' m = m)
  ∧ (∀ calls e',
       called (emit e' d (on_all calls m))
       = called (emit e' d m) ++ named_for e' calls).
Proof.
  intros Hreg Hn.
  assert (Hoff : ∃ l, m !! e = Some l ∧ h ∈ l
                      ∧ off e h m = <[e := remove_first h l]> m).
  { rewrite off_spec. destruct (m !! e) as [l|] eqn:Hl.
    - exists l. assert (h ∈ l) by (eapply registered_elem; eauto; lia).
      by rewrite decide_True.
    - unfold registrations in Hreg. rewrite Hl in Hreg. cbn in Hreg. lia. }
  destruct Hoff as (l & Hl & Hin & Hoff).
  repeat split.
  - rewrite invocations_emit. unfold registrations in *.
    rewrite Hoff, lookup_insert_eq. rewrite Hl in Hreg. cbn in *.
    rewrite count_remove_first, decide_True by done. lia.
  - rewrite !called_emit, Hoff, lookup_insert_eq, Hl. done.
  - intros h' Hne. rewrite !invocations_emit. unfold registrations.
    rewrite Hoff, lookup_insert_eq, Hl. cbn.
    rewrite count_remove_first, decide_False; [done |].
    intros [? _]. congruence.
  - intros e' Hne. unfold emit. by rewrite Hoff, lookup_insert_ne.
  - intros e' h' H0. rewrite off_spec.
    destruct (m !! e') as [l'|] eqn:Hl'; [| done].
    rewrite decide_False; [done |]. intros Hin'.
    unfold registrations in H0. rewrite Hl' in H0. cbn in H0.
    assert (Hf : h' ∈ filter (λ x, x = h') l')
      by (by apply list_elem_of_filter).
    destruct (filter (λ x, x = h') l'); [by apply elem_of_nil in Hf | done].
  - intros calls e'. rewrite emit_on_all. unfold called at 1.
    rewrite omap_app. fold (called (emit e' d m)). f_equal.
    induction (named_for e' calls) as [|x r IH]; [done |].
    cbn. by rewrite IH.
Qed.

End RegistryFacts.

(** A handler registered three times between two others, then taken off
    once. *)
Lemma off_removes_one_registration_witness :
  let m := Simple.on_all
             [("a", 7); ("a", 1); ("a", 7); ("b", 7); ("a", 2); ("a", 7)]
             (∅ : gmap string (list nat)) in
  Simple.registrations "a" 7 m = 3
  ∧ 0 < 3
  ∧ Simple.invocations 7 (Simple.emit "a" JS.Null (Simple.off "a" 7 m)) = 3 - 1
  ∧ Simple.called (Simple.emit "a" JS.Null (Simple.off "a" 7 m)) = [1; 7; 2; 7].
Proof.
  cbv zeta.
  assert (Hreg : Simple.registrations "a" 7
                   (Simple.on_all
                      [("a", 7); ("a", 1); ("a", 7); ("b", 7); ("a", 2);
                       ("a", 7)] (∅ : gmap string (list nat))) = 3)
    by (vm_compute; reflexivity).
  assert (Hpos : 0 < 3) by lia.
  pose proof (off_removes_one_registration _ "a" 7 JS.Null 3 Hreg Hpos)
    as (H1 & H2 & _).
  split; [exact Hreg |]. split; [exact Hpos |]. split; [exact H1 |].
  rewrite H2. vm_compute. reflexivity.
Defined.

(** ** RealtimeBrowserClient *)

Section BrowserFacts.
Import JS Browser.
Local Open Scope js_scope.
Local Open Scope string_scope.
Local Open Scope list_scope.
Local Open Scope nat_scope.

(** Unfolds the monad's plumbing. *)
Ltac plumbing :=
  unfold effects_of, exec, log, logError, emit, perform, bind, ret, throw,
    try_catch, read, write in *.

(** C9. Disconnect resets observable state: from any state whatever,
    [disconnect()] returns normally, and afterwards
    [getConnectionStatus()] is [false] and [getSessionId()] is [null]. *)
Theorem disconnect_resets_observable_state (w : World) :
  fst (disconnect w) = Returned tt
  ∧ getConnectionStatus (exec disconnect w) = false
  ∧ getSessionId (exec disconnect w) = Null.
Proof.
  unfold disconnect, clearTimeout, WebSocket_close, readyState. plumbing.
  destruct (reconnectTimer w) as [t|]; cbn;
    (destruct (ws w) as [s|]; cbn; [destruct (sockets w !! s) as [[]|] |]);
    cbn; auto.
Qed.


(** What [disconnect()] leaves behind, field by field. *)
Lemma disconnect_fields (w : World) :
  let w' := exec disconnect w in
  fst (disconnect w) = Returned tt
  ∧ ws w' = None ∧ isConnected w' = false ∧ sessionId w' = Null
  ∧ reconnectTimer w' = None
  ∧ reconnectAttempts w' = reconnectAttempts w
  ∧ maxReconnectAttempts w' = maxReconnectAttempts w
  ∧ length (sockets w') = length (sockets w)
  ∧ timers w'
    = match reconnectTimer w with
      | Some t => List.filter (λ x, negb (fst x =? t)%nat) (timers w)
      | None => timers w
      end
  ∧ effects w'
    = effects w
      ++ match reconnectTimer w with
         | Some t => [ClearTimeout t]
         | None => []
         end
      ++ match ws w with
         | Some s => [Close s 1000 "Client disconnect"]
         | None => []
         end.
Proof.
  unfold disconnect, clearTimeout, WebSocket_close, readyState. plumbing.
  destruct (reconnectTimer w) as [t|] eqn:Et; cbn;
    (destruct (ws w) as [s|] eqn:Es; cbn;
     [destruct (sockets w !! s) as [[]|] |]);
    cbn; rewrite ?Et, ?Es, ?length_insert, ?app_nil_r, <- ?app_assoc;
    auto 12.
Qed.

Lemma effects_of_app {A} (c : M A) (w : World) (added : list Effect) :
  effects (exec c w) = effects w ++ added → effects_of c w = added.
Proof. unfold effects_of. intros ->. apply drop_app_length. Qed.

(** C6. Session id capture: a frame whose type is [session.created] stores
    [data.session?.id] as the session id, so that [getSessionId()] returns
    it from then on, and the session is emitted under [session.created];
    this holds on the direct call and through [ws.onmessage]. *)
Theorem session_id_capture (w : World) (data session : Value) :
  member data "type" = Some (Str "session.created") →
  member data "session" = Some session →
  getSessionId (exec (onmessage (Some data)) w) = optional_member session "id"
  ∧ getSessionId (exec (handleMessage data) w) = optional_member session "id"
  ∧ emitted (effects_of (handleMessage data) w)
    = [(Str "session.created", [session])].
Proof.
  intros Htype Hsession.
  assert (H : ∃ added,
    handleMessage data w
    = (Returned tt,
       set_effects (effects w ++ added ++ [Emit (Str "session.created") [session]])
         (set_sessionId (optional_member session "id") w))
    ∧ emitted added = []).
  { unfold handleMessage, get, switch. rewrite Htype. plumbing. cbn.
    unfold get. rewrite Hsession. plumbing. cbn.
    destruct (debug w); cbn.
    - exists [ConsoleLog "Received event:"]. by rewrite <- app_assoc.
    - by exists []. }
  destruct H as (added & Hrun & Hadded).
  unfold onmessage, try_catch, exec, effects_of. cbn. rewrite Hrun. cbn.
  repeat split.
  unfold exec. rewrite Hrun. cbn.
  rewrite drop_app_length. unfold emitted. rewrite omap_app.
  fold (emitted added). by rewrite Hadded.
Qed.

(** The frame of the specification's example, received by a connected
    client. *)
Lemma session_id_capture_witness :
  let w := run [Call_connect; SocketOpens 0]
             (constructor "sk-test" "gpt-4o-realtime-preview-2024-10-01" false) in
  let frame := Object [("type", Str "session.created");
                       ("session", Object [("id", Str "sess_abc")])] in
  getSessionId w = Null
  ∧ getSessionId (exec (onmessage (Some frame)) w) = Str "sess_abc".
Proof.
  cbv zeta. split; [reflexivity |].
  pose proof (session_id_capture
    (run [Call_connect; SocketOpens 0]
       (constructor "sk-test" "gpt-4o-realtime-preview-2024-10-01" false))
    (Object [("type", Str "session.created");
             ("session", Object [("id", Str "sess_abc")])])
    (Object [("id", Str "sess_abc")]) eq_refl eq_refl) as (H & _).
  exact H.
Defined.

(** C8. Untyped frames are dropped: when a parsed frame has no [type], or a
    falsy one, [handleMessage] emits nothing under any event name, and all
    the frame leaves behind is one console line: the connection flag, the
    socket held and every socket's state are as they were.  (A frame that
    is [null] makes [handleMessage] throw; [ws.onmessage] catches that and
    it costs a console line too.) *)
Theorem untyped_frame_dropped (w : World) (data : Value) :
  truthy (optional_member data "type") = false →
  let w' := exec (onmessage (Some data)) w in
  emitted (effects_of (handleMessage data) w) = []
  ∧ emitted (effects_of (onmessage (Some data)) w) = []
  ∧ (∃ label, w' = set_effects (effects w ++ [ConsoleError label]) w)
  ∧ isConnected w' = isConnected w
  ∧ ws w' = ws w
  ∧ sockets w' = sockets w.
Proof.
  intros Hfalsy. unfold optional_member in Hfalsy.
  unfold onmessage, handleMessage, get. plumbing.
  destruct (member data "type") as [t|]; cbn.
  - rewrite Hfalsy. cbn. rewrite drop_app_length.
    repeat split. by exists "Received message without type:".
  - rewrite drop_all, drop_app_length.
    repeat split. by exists "Failed to parse message:".
Qed.

Lemma untyped_frame_dropped_witness :
  let w := run [Call_connect; SocketOpens 0]
             (constructor "sk-test" "gpt-4o-realtime-preview-2024-10-01" false) in
  let frame := Object [("event", Str "ping"); ("type", Str "")] in
  truthy (optional_member frame "type") = false
  ∧ emitted (effects_of (handleMessage frame) w) = []
  ∧ isConnected (exec (onmessage (Some frame)) w) = true
  ∧ sockets (exec (onmessage (Some frame)) w) = [OPEN].
Proof.
  cbv zeta.
  pose proof (untyped_frame_dropped
    (run [Call_connect; SocketOpens 0]
       (constructor "sk-test" "gpt-4o-realtime-preview-2024-10-01" false))
    (Object [("event", Str "ping"); ("type", Str "")]) eq_refl) as H.
  cbv zeta in H. destruct H as (H1 & _ & _ & H2 & _ & H3).
  split; [reflexivity |]. split; [exact H1 |].
  rewrite H2, H3. split; reflexivity.
Defined.


(** ** Commands while the socket is not open *)

Lemma send_not_open (w : World) (data : Value) :
  not_open w →
  send data w
  = (Returned tt,
     set_effects
       (effects w ++ [ConsoleError "Cannot send: WebSocket not connected"]) w).
Proof.
  unfold not_open, send. plumbing. cbn.
  destruct (ws w) as [s|]; [| done].
  intros Hst. by rewrite bool_decide_eq_true_2.
Qed.

(** C4, as the code has it.  A command issued while the client holds no
    socket, or one that is not open, writes nothing to the transport and
    changes nothing in the client; it leaves the console line
    "Cannot send: WebSocket not connected" and returns normally.  Nothing
    is thrown, emitted or rejected: the caller is not told. *)
Theorem command_while_not_open (w : World) (e : Event) :
  is_command e = true →
  not_open w →
  deliver e w
  = (Returned tt,
     set_effects
       (effects w ++ [ConsoleError "Cannot send: WebSocket not connected"]) w)
  ∧ transmitted (effects_of (deliver e) w) = []
  ∧ ¬ signalled (deliver e) w.
Proof.
  intros Hcmd Hclosed.
  assert (Hrun : deliver e w
    = (Returned tt,
       set_effects
         (effects w ++ [ConsoleError "Cannot send: WebSocket not connected"])
         w)).
  { destruct e; try discriminate Hcmd; cbn [deliver];
      unfold updateSession, appendInputAudio, commitInputAudio,
        clearInputAudio, createResponse, cancelResponse;
      rewrite ?btoa_binary; by apply send_not_open. }
  assert (Heff : effects_of (deliver e) w
                 = [ConsoleError "Cannot send: WebSocket not connected"]).
  { apply effects_of_app. unfold exec. by rewrite Hrun. }
  split; [exact Hrun |]. split; [by rewrite Heff |].
  unfold signalled. rewrite Heff, Hrun. cbn.
  intros [[error H] | [(event & args & H) | (socket & message & H)]].
  - discriminate H.
  - apply list_elem_of_singleton in H. discriminate H.
  - apply list_elem_of_singleton in H. discriminate H.
Qed.

(** [appendInputAudio] on a client that never connected. *)
Lemma command_while_not_open_witness :
  let w := constructor "sk-test" "gpt-4o-realtime-preview-2024-10-01" false in
  is_command (Call_appendInputAudio [x01; x02]) = true
  ∧ not_open w
  ∧ effects_of (appendInputAudio [x01; x02]) w
    = [ConsoleError "Cannot send: WebSocket not connected"].
Proof.
  cbv zeta.
  assert (Hclosed :
    not_open (constructor "sk-test" "gpt-4o-realtime-preview-2024-10-01" false))
    by exact I.
  pose proof (command_while_not_open _ (Call_appendInputAudio [x01; x02])
                eq_refl Hclosed) as (Hrun & _).
  split; [reflexivity |]. split; [exact Hclosed |].
  apply effects_of_app. unfold exec.
  change (appendInputAudio [x01; x02])
    with (deliver (Call_appendInputAudio [x01; x02])).
  by rewrite Hrun.
Defined.

(** C4, as the specification words it, fails: [appendInputAudio] on a
    disconnected client returns without telling its caller anything. *)
Lemma appendInputAudio_disconnected_unsignalled :
  let w := constructor "sk-test" "gpt-4o-realtime-preview-2024-10-01" false in
  getConnectionStatus w = false
  ∧ fst (appendInputAudio [x01; x02] w) = Returned tt
  ∧ ¬ signalled (appendInputAudio [x01; x02]) w.
Proof.
  cbv zeta. split; [reflexivity |]. split; [reflexivity |].
  unfold signalled.
  change (effects_of (appendInputAudio [x01; x02])
            (constructor "sk-test" "gpt-4o-realtime-preview-2024-10-01" false))
    with [ConsoleError "Cannot send: WebSocket not connected"].
  intros [[error H] | [(event & args & H) | (socket & message & H)]].
  - discriminate H.
  - apply list_elem_of_singleton in H. discriminate H.
  - apply list_elem_of_singleton in H. discriminate H.
Qed.

(** ** Frames of unknown type *)

Lemma find_no_case (t : string) (cases : list (string * M unit)) :
  t ∉ map fst cases →
  List.find (λ c, is_string (Str t) (fst c)) cases = None.
Proof.
  induction cases as [|[label body] cases IH]; [done |].
  cbn. rewrite not_elem_of_cons. intros [Hne Hrest].
  destruct (String.eqb_spec t label) as [-> | _]; [done | by apply IH].
Qed.

(** C3, as the code has it.  A parsed frame whose [type] is a non-empty
    string outside the cases of [handleMessage] is emitted by
    [RealtimeBrowserClient] exactly once, under its raw type name and
    carrying the whole frame: that client has no wildcard channel.
    [SimpleRealtimeClient] calls the handlers registered for the frame's
    type and then those registered for ["*"].  Neither drops the frame. *)
Theorem unknown_event_forwarding (w : World) (data : Value) (t : string)
    (EventHandler : Type) (eventHandlers : gmap string (list EventHandler))
    (dbg : bool) :
  member data "type" = Some (Str t) →
  t ∉ known_event_types →
  t ≠ "" →
  emitted (effects_of (handleMessage data) w) = [(Str t, [data])]
  ∧ emitted (effects_of (onmessage (Some data)) w) = [(Str t, [data])]
  ∧ Simple.called (Simple.onmessage dbg (Some data) eventHandlers)
    = default [] (eventHandlers !! t) ++ default [] (eventHandlers !! "*").
Proof.
  intros Htype Hunknown Hne.
  assert (Hrun : ∃ added,
    handleMessage data w
    = (Returned tt, set_effects (effects w ++ added ++ [Emit (Str t) [data]]) w)
    ∧ emitted added = []).
  { assert (Hfind : switch (Str t) (message_cases data) (emit (Str t) [data])
                    = emit (Str t) [data]).
    { unfold switch. by rewrite find_no_case. }
    unfold handleMessage, get. rewrite Htype. plumbing.
    cbn -[switch message_cases].
    destruct (String.eqb_spec t "") as [-> | _]; [done |].
    cbn -[switch message_cases].
    destruct (debug w); cbn -[switch message_cases]; rewrite Hfind;
      plumbing; cbn.
    - exists [ConsoleLog "Received event:"]. by rewrite <- app_assoc.
    - by exists []. }
  destruct Hrun as (added & Hrun & Hadded).
  assert (Hem : emitted (added ++ [Emit (Str t) [data]]) = [(Str t, [data])]).
  { unfold emitted. rewrite omap_app. fold (emitted added).
    by rewrite Hadded. }
  split; [| split].
  - rewrite (effects_of_app _ _ (added ++ [Emit (Str t) [data]])); [done |].
    unfold exec. by rewrite Hrun.
  - rewrite (effects_of_app _ _ (added ++ [Emit (Str t) [data]])); [done |].
    unfold exec, onmessage, try_catch. by rewrite Hrun.
  - by apply called_onmessage.
Qed.

(** An upstream event neither client models, and one handler on the
    wildcard. *)
Lemma unknown_event_forwarding_witness :
  let w := run [Call_connect; SocketOpens 0]
             (constructor "sk-test" "gpt-4o-realtime-preview-2024-10-01" false) in
  let frame := Object [("type", Str "response.output_item.added");
                       ("output_index", Number 0)] in
  let registry := Simple.on "*" 5 (Simple.on "response.output_item.added" 3 ∅) in
  member frame "type" = Some (Str "response.output_item.added")
  ∧ ("response.output_item.added" ∉ known_event_types)
  ∧ "response.output_item.added" ≠ ""
  ∧ emitted (effects_of (onmessage (Some frame)) w)
    = [(Str "response.output_item.added", [frame])]
  ∧ Simple.called (Simple.onmessage false (Some frame) registry) = [3; 5].
Proof.
  cbv zeta.
  assert (Hunknown : "response.output_item.added" ∉ known_event_types).
  { apply (bool_decide_unpack _). vm_compute. exact I. }
  assert (Hne : "response.output_item.added" ≠ "") by discriminate.
  pose proof (unknown_event_forwarding
    (run [Call_connect; SocketOpens 0]
       (constructor "sk-test" "gpt-4o-realtime-preview-2024-10-01" false))
    (Object [("type", Str "response.output_item.added");
             ("output_index", Number 0)])
    "response.output_item.added" nat
    (Simple.on "*" 5 (Simple.on "response.output_item.added" 3 ∅)) false
    eq_refl Hunknown Hne) as (_ & H2 & H3).
  split; [reflexivity |]. split; [exact Hunknown |]. split; [exact Hne |].
  split; [exact H2 |].
  rewrite H3. vm_compute. reflexivity.
Defined.

(** C3, as the specification words it, fails on [RealtimeBrowserClient]:
    the frame is emitted under its own type only, and nothing goes out
    under ["*"]. *)
Lemma unknown_event_no_wildcard :
  let w := run [Call_connect; SocketOpens 0]
             (constructor "sk-test" "gpt-4o-realtime-preview-2024-10-01" false) in
  let frame := Object [("type", Str "response.output_item.added");
                       ("output_index", Number 0)] in
  ("response.output_item.added" ∉ known_event_types)
  ∧ effects_of (onmessage (Some frame)) w
    = [Emit (Str "response.output_item.added") [frame]]
  ∧ ¬ ∃ args, Emit (Str "*") args ∈ effects_of (onmessage (Some frame)) w.
Proof.
  cbv zeta. split; [| split].
  - apply (bool_decide_unpack _). vm_compute. exact I.
  - reflexivity.
  - change (effects_of _ _)
      with [Emit (Str "response.output_item.added")
              [Object [("type", Str "response.output_item.added");
                       ("output_index", Number 0)]]].
    intros [args H]. apply list_elem_of_singleton in H. discriminate H.
Qed.


(** ** Relations every step of a method keeps *)

Section Preservation.
Context (P : World → World → Prop) `{!Reflexive P} `{!Transitive P}.

Lemma preserves_ret {A} (a : A) : preserves P (ret a).
Proof. intros w. apply reflexivity. Qed.

Lemma preserves_throw {A} (error : string) : preserves P (@throw A error).
Proof. intros w. apply reflexivity. Qed.

Lemma preserves_read {A} (field : World → A) : preserves P (read field).
Proof. intros w. apply reflexivity. Qed.

Lemma preserves_write (update : World → World) :
  (∀ w, P w (update w)) → preserves P (write update).
Proof. intros H w. apply H. Qed.

Lemma preserves_bind {A B} (c : M A) (k : A → M B) :
  preserves P c → (∀ a, preserves P (k a)) → preserves P (bind c k).
Proof.
  intros Hc Hk w. specialize (Hc w). unfold exec, bind in *.
  destruct (c w) as [[a | error] w']; cbn in *; [| done].
  etransitivity; [exact Hc | apply Hk].
Qed.

Lemma preserves_try_catch (body handler : M unit) :
  preserves P body → preserves P handler → preserves P (try_catch body handler).
Proof.
  intros Hb Hh w. specialize (Hb w). unfold exec, try_catch in *.
  destruct (body w) as [[a | error] w']; cbn in *; [done |].
  etransitivity; [exact Hb | apply Hh].
Qed.

Lemma preserves_switch (scrutinee : Value) (cases : list (string * M unit))
    (otherwise : M unit) :
  Forall (λ c, preserves P (snd c)) cases →
  preserves P otherwise →
  preserves P (switch scrutinee cases otherwise).
Proof.
  intros Hcases Hother. unfold switch.
  destruct (List.find _ cases) as [c|] eqn:Hfind; [| done].
  apply find_some in Hfind as [Hin _].
  rewrite List.Forall_forall in Hcases. by apply Hcases.
Qed.

Lemma preserves_run (events : list Event) (ok : Event → bool) :
  (∀ e, ok e = true → preserves P (deliver e)) →
  forallb ok events = true →
  ∀ w, P w (run events w).
Proof.
  intros Hok. induction events as [|e events IH]; intros Hall w; cbn.
  - apply reflexivity.
  - cbn in Hall. apply andb_true_iff in Hall as [He Hall].
    etransitivity; [by apply Hok | by apply IH].
Qed.
End Preservation.

(** Closes the side conditions on the relation itself. *)
Ltac relation_goals :=
  match goal with
  | |- Reflexive _ => typeclasses eauto
  | |- Transitive _ => typeclasses eauto
  | _ => idtac
  end.

(** Walks a method down to its field updates. *)
Ltac walk leaf :=
  repeat
    match goal with
    | |- preserves _ (bind _ _) =>
        apply preserves_bind; relation_goals; [| intros ?]
    | |- preserves _ (ret _) => apply preserves_ret; relation_goals
    | |- preserves _ (throw _) => apply preserves_throw; relation_goals
    | |- preserves _ (read _) => apply preserves_read; relation_goals
    | |- preserves _ (try_catch _ _) =>
        apply preserves_try_catch; relation_goals
    | |- preserves _ (write _) => apply preserves_write; intros ?; leaf
    | |- preserves _ (perform _) => apply preserves_write; intros ?; leaf
    | |- preserves _ (match ?x with _ => _ end) => destruct x
    | |- preserves _ (if ?x then _ else _) => destruct x
    | |- preserves _ _ => assumption
    end.

(** *** No timeout armed, none set *)

#[local] Instance stays_quiet_refl : Reflexive stays_quiet.
Proof.
  intros w Hw. repeat split; [done |]. exists []. by rewrite app_nil_r.
Qed.

#[local] Instance stays_quiet_trans : Transitive stays_quiet.
Proof.
  intros a b c Hab Hbc Ha.
  destruct (Hab Ha) as (Hb & Hlen & added & Heff & Hadd).
  destruct (Hbc Hb) as (Hc & Hlen' & added' & Heff' & Hadd').
  repeat split; [done | congruence |].
  exists (added ++ added'). rewrite Heff', Heff, <- app_assoc.
  split; [done |]. by rewrite forallb_app, Hadd, Hadd'.
Qed.














(** *** The attempt counter stays within its maximum *)

#[local] Instance stays_bounded_refl : Reflexive stays_bounded.
Proof. by intros w. Qed.

#[local] Instance stays_bounded_trans : Transitive stays_bounded.
Proof.
  intros a b c [Hab1 Hab2] [Hbc1 Hbc2]. split; [congruence |].
  intros Ha. apply Hbc2, Hab2, Ha.
Qed.

Ltac bounded_leaf := split; cbn; [done | intros; lia].

Lemma bounded_log (label : string) : preserves stays_bounded (log label).
Proof. unfold log. walk bounded_leaf. Qed.

Lemma bounded_logError (label : string) :
  preserves stays_bounded (logError label).
Proof. unfold logError. walk bounded_leaf. Qed.

Lemma bounded_emit event args : preserves stays_bounded (emit event args).
Proof. unfold emit. walk bounded_leaf. Qed.

Lemma bounded_send (data : Value) : preserves stays_bounded (send data).
Proof.
  unfold send, WebSocket_send. walk bounded_leaf; apply bounded_logError.
Qed.

Lemma bounded_disconnect : preserves stays_bounded disconnect.
Proof. unfold disconnect, clearTimeout, WebSocket_close. walk bounded_leaf. Qed.

Lemma bounded_connect : preserves stays_bounded connect.
Proof.
  unfold connect, new_WebSocket. walk bounded_leaf; apply bounded_log.
Qed.

Lemma bounded_get (data : Value) (key : string) :
  preserves stays_bounded (get data key).
Proof. unfold get. walk bounded_leaf. Qed.

Lemma bounded_handleError (data : Value) :
  preserves stays_bounded (handleError data).
Proof.
  unfold handleError.
  walk bounded_leaf;
    auto using bounded_get, bounded_logError, bounded_emit, bounded_disconnect.
Qed.

Lemma bounded_handleMessage (data : Value) :
  preserves stays_bounded (handleMessage data).
Proof.
  unfold handleMessage.
  walk bounded_leaf; auto using bounded_get, bounded_logError, bounded_log.
  apply preserves_switch; relation_goals; [| apply bounded_emit].
  unfold message_cases.
  repeat (constructor;
          [cbn [snd]; walk bounded_leaf;
           auto using bounded_get, bounded_emit, bounded_handleError |]).
  constructor.
Qed.

(** The guard of [onclose] is what keeps the counter within bounds:
    [scheduleReconnect] runs only below the maximum. *)
Lemma bounded_onclose (socket : nat) (code : Z) (reason : string) :
  preserves stays_bounded (onclose socket code reason).
Proof.
  intros w. unfold onclose, scheduleReconnect, setTimeout. plumbing.
  cbn -[Nat.ltb Z.pow Z.min].
  destruct (debug w) eqn:Ed; cbn -[Nat.ltb Z.pow Z.min];
    (destruct ((code =? 1008)%Z || includes reason "auth");
     cbn -[Nat.ltb Z.pow Z.min]; [by split |]);
    (destruct (negb (code =? 1000)%Z); cbn -[Nat.ltb Z.pow Z.min];
     [| by split]);
    (destruct (Nat.ltb_spec (reconnectAttempts w) (maxReconnectAttempts w));
     cbn -[Nat.ltb Z.pow Z.min]; rewrite ?Ed; cbn -[Nat.ltb Z.pow Z.min];
     split; cbn; intros; lia).
Qed.

Lemma bounded_deliver (e : Event) : preserves stays_bounded (deliver e).
Proof.
  destruct e; cbn [deliver];
    unfold updateSession, appendInputAudio, commitInputAudio,
      clearInputAudio, createResponse, cancelResponse, onopen,
      sendAuthMessage, onmessage, onerror;
    walk bounded_leaf;
    auto using bounded_send, bounded_disconnect, bounded_connect, bounded_log,
      bounded_logError, bounded_emit, bounded_handleMessage, bounded_onclose.
Qed.

Lemma bounded_run (events : list Event) (w : World) :
  stays_bounded w (run events w).
Proof.
  eapply (preserves_run _ events (λ _, true));
    [intros e _; apply bounded_deliver | by induction events].
Qed.


(** ** Reconnection *)

(** What [onclose] does on a transient drop, below the maximum and at it. *)
Lemma onclose_transient (w : World) (socket : nat) (code : Z) (reason : string) :
  transient code reason = true →
  let w' := exec (onclose socket code reason) w in
  let delay :=
    Z.min (reconnectDelay w * 2 ^ (Z.of_nat (S (reconnectAttempts w)) - 1))
      30000 in
  if (reconnectAttempts w <? maxReconnectAttempts w)%nat then
    reconnectAttempts w' = S (reconnectAttempts w)
    ∧ timers w' = timers w ++ [(nextTimer w, delay)]
    ∧ reconnectTimer w' = Some (nextTimer w)
    ∧ scheduled_delays (effects_of (onclose socket code reason) w) = [delay]
  else
    reconnectAttempts w' = reconnectAttempts w
    ∧ timers w' = timers w
    ∧ reconnectTimer w' = reconnectTimer w
    ∧ scheduled_delays (effects_of (onclose socket code reason) w) = [].
Proof.
  unfold transient. intros Ht.
  apply andb_true_iff in Ht as [Ht H1000].
  apply andb_true_iff in Ht as [H1008 Hauth].
  apply negb_true_iff in H1000, H1008, Hauth.
  unfold onclose, scheduleReconnect, setTimeout. plumbing.
  cbn -[Nat.ltb Z.pow Z.min]. rewrite H1000, H1008, Hauth.
  destruct (debug w) eqn:Ed; cbn -[Nat.ltb Z.pow Z.min];
    (destruct (reconnectAttempts w <? maxReconnectAttempts w)%nat;
     cbn -[Nat.ltb Z.pow Z.min]; rewrite ?Ed; cbn -[Nat.ltb Z.pow Z.min];
     rewrite <- ?app_assoc, ?drop_app_length; repeat split; reflexivity).
Qed.

Lemma onopen_resets (w : World) (socket : nat) :
  reconnectAttempts (exec (onopen socket) w) = 0
  ∧ isConnected (exec (onopen socket) w) = true.
Proof.
  unfold onopen, sendAuthMessage, send, WebSocket_send, readyState. plumbing.
  cbn.
  destruct (debug w); cbn;
    (destruct (ws w) as [s|]; cbn;
     [destruct (bool_decide (default CLOSED (sockets w !! s) ≠ OPEN)) |]);
    cbn; auto.
Qed.

(** C1. Reconnection backoff.  On a transient drop (a close that is neither
    the normal closure 1000 nor read as an authentication failure) and
    with the attempt counter below the maximum, [onclose] counts one more
    attempt and arms one timeout whose delay is
    [min (reconnectDelay * 2^(attempt - 1)) 30000], [attempt] being the new
    count; with the counter at the maximum it arms none.  Every open
    resets the counter to zero.  On a client as constructed the counter
    never exceeds 5 whatever happens, and three consecutive drops after an
    open are answered with delays of 1000, 2000 and 4000 ms, after which a
    successful open leaves the counter at zero. *)
Theorem reconnect_backoff (w : World) (socket : nat) (code : Z)
    (reason : string) :
  transient code reason = true →
  let w' := exec (onclose socket code reason) w in
  (reconnectAttempts w < maxReconnectAttempts w →
     reconnectAttempts w' = S (reconnectAttempts w)
     ∧ scheduled_delays (effects_of (onclose socket code reason) w)
       = [Z.min (reconnectDelay w * 2 ^ (Z.of_nat (reconnectAttempts w') - 1))
            30000]
     ∧ timers w'
       = timers w
         ++ [(nextTimer w,
              Z.min (reconnectDelay w
                     * 2 ^ (Z.of_nat (reconnectAttempts w') - 1)) 30000)]
     ∧ reconnectTimer w' = Some (nextTimer w))
  ∧ (maxReconnectAttempts w ≤ reconnectAttempts w →
     scheduled_delays (effects_of (onclose socket code reason) w) = []
     ∧ timers w' = timers w
     ∧ reconnectAttempts w' = reconnectAttempts w)
  ∧ (∀ opened, reconnectAttempts (exec (onopen opened) w') = 0)
  ∧ (∀ events key name dbg,
       let client := run events (constructor key name dbg) in
       maxReconnectAttempts client = 5
       ∧ reconnectAttempts client ≤ 5)
  ∧ (∀ key name dbg,
       let drops :=
         [Call_connect; SocketOpens 0;
          SocketCloses 0 1006 ""; TimerFires 1;
          SocketCloses 1 1006 ""; TimerFires 2;
          SocketCloses 2 1006 ""] in
       let client := run drops (constructor key name dbg) in
       scheduled_delays (effects client) = [1000; 2000; 4000]%Z
       ∧ reconnectAttempts client = 3
       ∧ reconnectAttempts (run [TimerFires 3; SocketOpens 3] client) = 0).
Proof.
  intros Ht w'. subst w'.
  pose proof (onclose_transient w socket code reason Ht) as Hclose.
  cbv zeta in Hclose.
  repeat split.
  - destruct (Nat.ltb_spec (reconnectAttempts w) (maxReconnectAttempts w));
      [apply Hclose | lia].
  - destruct (Nat.ltb_spec (reconnectAttempts w) (maxReconnectAttempts w));
      [| lia].
    destruct Hclose as (-> & _ & _ & ->). done.
  - destruct (Nat.ltb_spec (reconnectAttempts w) (maxReconnectAttempts w));
      [| lia].
    destruct Hclose as (-> & -> & _). done.
  - destruct (Nat.ltb_spec (reconnectAttempts w) (maxReconnectAttempts w));
      [apply Hclose | lia].
  - destruct (Nat.ltb_spec (reconnectAttempts w) (maxReconnectAttempts w));
      [lia | apply Hclose].
  - destruct (Nat.ltb_spec (reconnectAttempts w) (maxReconnectAttempts w));
      [lia | apply Hclose].
  - destruct (Nat.ltb_spec (reconnectAttempts w) (maxReconnectAttempts w));
      [lia | apply Hclose].
  - apply onopen_resets.
  - apply (bounded_run events (constructor key name dbg)).
  - destruct (bounded_run events (constructor key name dbg)) as [Hmax Hle].
    rewrite Hmax in Hle. apply Hle. cbn. lia.
  - by destruct dbg.
  - by destruct dbg.
  - by destruct dbg.
Qed.

(** A client that lost its connection once, losing it again. *)
Lemma reconnect_backoff_witness :
  let w := run [Call_connect; SocketOpens 0; SocketCloses 0 1006 "";
                TimerFires 1]
             (constructor "sk-test" "gpt-4o-realtime-preview-2024-10-01" false) in
  transient 1006 "" = true
  ∧ reconnectAttempts w = 1
  ∧ reconnectAttempts (exec (onclose 1 1006 "") w) = 2
  ∧ scheduled_delays (effects_of (onclose 1 1006 "") w) = [2000%Z].
Proof.
  cbv zeta.
  pose proof (reconnect_backoff
    (run [Call_connect; SocketOpens 0; SocketCloses 0 1006 ""; TimerFires 1]
       (constructor "sk-test" "gpt-4o-realtime-preview-2024-10-01" false))
    1 1006 "" eq_refl) as (H & _).
  cbv zeta in H.
  assert (Hlt : 1 < 5) by lia.
  destruct (H Hlt) as (H1 & H2 & _).
  split; [reflexivity |]. split; [reflexivity |].
  split; [exact H1 |]. rewrite H2. reflexivity.
Defined.


(** ** Teardown *)











(** [disconnect()] clears the one timer it holds.  After two [connect()]
    calls in a row both sockets can drop, each drop sets a timeout and the
    second handle overwrites the first: the first timeout stays armed
    through [disconnect()].  This is why the result above asks for tracked
    timeouts. *)
Lemma disconnect_clears_held_timer_only :
  let w := run [Call_connect; Call_connect;
                SocketCloses 0 1006 ""; SocketCloses 1 1006 ""]
             (constructor "sk-test" "gpt-4o-realtime-preview-2024-10-01" false) in
  timers w = [(1, 1000%Z); (2, 2000%Z)]
  ∧ reconnectTimer w = Some 2
  ∧ ¬ timers_tracked w
  ∧ effects_of disconnect w
    = [ClearTimeout 2; Close 1 1000 "Client disconnect"]
  ∧ timers (exec disconnect w) = [(1, 1000%Z)].
Proof.
  cbv zeta. split; [reflexivity |]. split; [reflexivity |].
  split; [| split; reflexivity].
  intros Htracked. specialize (Htracked (1, 1000%Z)).
  vm_compute in Htracked.
  assert (H : Some 2 = Some 1) by (apply Htracked; left).
  discriminate H.
Qed.

End BrowserFacts.

(** * Further properties of RealtimeBrowserClient *)

Section BrowserMore.
Import JS Browser.
Local Open Scope js_scope.
Local Open Scope string_scope.
Local Open Scope list_scope.
Local Open Scope nat_scope.

Ltac plumb :=
  unfold effects_of, exec, log, logError, emit, perform, bind, ret, throw,
    try_catch, read, write in *.

(** The two ways [send] can go. *)
Lemma send_cases (w : World) (data : Value) :
  (not_open w
   ∧ send data w
     = (Returned tt,
        set_effects
          (effects w ++ [ConsoleError "Cannot send: WebSocket not connected"])
          w))
  ∨ (∃ socket,
       ws w = Some socket ∧ sockets w !! socket = Some OPEN
       ∧ send data w
         = (Returned tt,
            set_effects
              (effects w
               ++ [Transmit socket
                     match data with
                     | Str text => FrameText text
                     | _ => FrameJson data
                     end]) w)).
Proof.
  unfold not_open, send, WebSocket_send, readyState. plumb. cbn.
  destruct (ws w) as [s|]; [| by left].
  destruct (sockets w !! s) as [[]|] eqn:Es; cbn;
    try (left; split; [discriminate | reflexivity]).
  right. exists s. by destruct data.
Qed.

(** [send] with the held socket open. *)
Lemma send_open (w : World) (socket : nat) (data : Value) :
  ws w = Some socket →
  sockets w !! socket = Some OPEN →
  send data w
  = (Returned tt,
     set_effects
       (effects w
        ++ [Transmit socket
              match data with
              | Str text => FrameText text
              | _ => FrameJson data
              end]) w).
Proof.
  intros Hs Hopen.
  destruct (send_cases w data) as [[Hclosed _] | (s & Hs' & _ & Hrun)].
  - unfold not_open, readyState in Hclosed. rewrite Hs, Hopen in Hclosed.
    by destruct Hclosed.
  - rewrite Hs in Hs'. by injection Hs' as <-.
Qed.

(** [onclose] always marks the client disconnected and announces the close
    first; it sets a timeout exactly on a transient drop below the maximum
    number of attempts; the socket handle and the session id stay. *)
Theorem onclose_schedules_iff (w : World) (socket : nat) (code : Z)
    (reason : string) :
  let w' := exec (onclose socket code reason) w in
  isConnected w' = false
  ∧ (∃ rest,
       emitted (effects_of (onclose socket code reason) w)
       = (Str "disconnected",
          [Object [("code", Number (inject_Z code)); ("reason", Str reason)]])
         :: rest)
  ∧ (scheduled_delays (effects_of (onclose socket code reason) w) ≠ []
     ↔ transient code reason = true
       ∧ reconnectAttempts w < maxReconnectAttempts w)
  ∧ ws w' = ws w
  ∧ sessionId w' = sessionId w.
Proof.
  unfold transient, onclose, scheduleReconnect, setTimeout. plumb.
  cbn -[Nat.ltb Z.pow Z.min].
  destruct (debug w) eqn:Ed; cbn -[Nat.ltb Z.pow Z.min];
    (destruct ((code =? 1008)%Z) eqn:E8; cbn -[Nat.ltb Z.pow Z.min];
     [| destruct (includes reason "auth") eqn:Ea;
        cbn -[Nat.ltb Z.pow Z.min];
        [| destruct ((code =? 1000)%Z) eqn:E0; cbn -[Nat.ltb Z.pow Z.min];
           [| destruct (Nat.ltb_spec (reconnectAttempts w)
                          (maxReconnectAttempts w)) as [Hlt | Hge];
              cbn -[Nat.ltb Z.pow Z.min]; rewrite ?Ed;
              cbn -[Nat.ltb Z.pow Z.min]]]]);
    rewrite <- ?app_assoc, ?drop_app_length; cbn -[Nat.ltb Z.pow Z.min];
    (split; [reflexivity |]); (split; [eexists; reflexivity |]);
    (split; [| split; reflexivity]);
    (split; [intros Hs | intros [Ht Hl]]);
    first [ by destruct Hs | discriminate | lia
          | by (split; [reflexivity | lia]) ].
Qed.


(** A close that [onclose] reads as an authentication failure (code 1008,
    or any code, 1000 included, with a reason that contains "auth") is
    announced as [disconnected] and then as an [error] of type
    [authentication_error]; the pending [connect()] promise is rejected,
    and no reconnection is scheduled however few attempts were made. *)
Theorem onclose_authentication (w : World) (socket : nat) (code : Z)
    (reason : string) :
  (code =? 1008)%Z || includes reason "auth" = true →
  let w' := exec (onclose socket code reason) w in
  emitted (effects_of (onclose socket code reason) w)
  = [(Str "disconnected",
      [Object [("code", Number (inject_Z code)); ("reason", Str reason)]]);
     (Str "error",
      [Object [("type", Str "authentication_error");
               ("message",
                Str "Authentication failed. Please check your API key.");
               ("code", Number (inject_Z code));
               ("reason", Str reason)]])]
  ∧ Reject socket "Authentication failed"
    ∈ effects_of (onclose socket code reason) w
  ∧ scheduled_delays (effects_of (onclose socket code reason) w) = []
  ∧ timers w' = timers w
  ∧ reconnectAttempts w' = reconnectAttempts w.
Proof.
  intros Hauth. unfold onclose. plumb. cbn. rewrite Hauth.
  destruct (debug w); cbn;
    rewrite <- ?app_assoc, ?drop_app_length; cbn;
    repeat split; rewrite ?elem_of_cons; auto 6.
Qed.

(** A normal closure whose reason mentions authorisation. *)
Lemma onclose_authentication_witness :
  let w := run [Call_connect; SocketOpens 0]
             (constructor "sk-test" "gpt-4o-realtime-preview-2024-10-01" false) in
  (1000 =? 1008)%Z || includes "unauthorized" "auth" = true
  ∧ scheduled_delays (effects_of (onclose 0 1000 "unauthorized") w) = []
  ∧ Reject 0 "Authentication failed"
    ∈ effects_of (onclose 0 1000 "unauthorized") w.
Proof.
  cbv zeta.
  pose proof (onclose_authentication
    (run [Call_connect; SocketOpens 0]
       (constructor "sk-test" "gpt-4o-realtime-preview-2024-10-01" false))
    0 1000 "unauthorized" eq_refl) as H.
  cbv zeta in H. destruct H as (_ & H1 & H2 & _).
  split; [reflexivity |]. split; [exact H2 | exact H1].
Defined.

(** A truthy value has properties to read. *)
Lemma member_truthy (v : Value) (key : string) :
  truthy v = true → member v key = Some (optional_member v key).
Proof. unfold optional_member. by destruct v. Qed.

(** An [error] frame: the console line, then either the announcement and
    [disconnect()], or the error passed on. *)
Lemma handleMessage_error (w : World) (data : Value) :
  member data "type" = Some (Str "error") →
  let error := or_else (optional_member data "error") (Object []) in
  let code := optional_member error "code" in
  ∃ before,
    emitted before = []
    ∧ forallb harmless before = true
    ∧ (∀ s c r, Close s c r ∉ before)
    ∧ handleMessage data w
      = if is_auth_code code then
          disconnect
            (set_effects
               (effects w ++ before
                ++ [Emit (Str "error")
                      [Object [("type", Str "authentication_error");
                               ("message",
                                or_else (optional_member error "message")
                                  (Str "Invalid API key"));
                               ("code", code)]]]) w)
        else
          (Returned tt,
           set_effects (effects w ++ before ++ [Emit (Str "error") [error]]) w).
Proof.
  intros Htype.
  assert (Hdata : member data "error" = Some (optional_member data "error")).
  { unfold optional_member. destruct data; try discriminate Htype; done. }
  set (e := optional_member data "error") in *.
  assert (Herror : truthy (or_else e (Object [])) = true).
  { unfold or_else. by destruct (truthy e) eqn:E. }
  cbv zeta. set (error := or_else e (Object [])) in *.
  unfold handleMessage, get. rewrite Htype. plumb.
  cbn -[handleError disconnect].
  unfold handleError, get. rewrite Hdata. plumb.
  cbn -[disconnect or_else optional_member is_string]. fold error.
  rewrite !(member_truthy error) by exact Herror.
  fold (is_auth_code (optional_member error "code")).
  destruct (debug w) eqn:Ed; cbn -[disconnect or_else optional_member is_auth_code].
  - exists [ConsoleLog "Received event:"; ConsoleError "API Error:"].
    repeat split.
    + intros s c r H. repeat (apply elem_of_cons in H as [H | H]; [discriminate H |]).
      by apply elem_of_nil in H.
    + destruct (is_auth_code _); cbn -[disconnect or_else optional_member];
        by rewrite <- !app_assoc.
  - exists [ConsoleError "API Error:"].
    repeat split.
    + intros s c r H. repeat (apply elem_of_cons in H as [H | H]; [discriminate H |]).
      by apply elem_of_nil in H.
    + destruct (is_auth_code _); cbn -[disconnect or_else optional_member];
        by rewrite <- !app_assoc.
Qed.


(** An [error] frame whose code is neither [invalid_api_key] nor
    [authentication_error] is passed on: the frame's [error] object (an
    empty object when the frame has none) is emitted under [error], and
    nothing else happens to the client: no socket is closed, and every
    field is as it was. *)
Theorem error_frame_forwarded (w : World) (data : Value) :
  member data "type" = Some (Str "error") →
  let error := or_else (optional_member data "error") (Object []) in
  is_auth_code (optional_member error "code") = false →
  ∃ added,
    exec (onmessage (Some data)) w = set_effects (effects w ++ added) w
    ∧ emitted added = [(Str "error", [error])]
    ∧ (∀ socket code reason, Close socket code reason ∉ added)
    ∧ scheduled_delays added = [].
Proof.
  intros Htype error Hcode.
  destruct (handleMessage_error w data Htype)
    as (before & Hem & Hharm & Hclose & Hrun).
  cbv zeta in Hrun. fold error in Hrun. rewrite Hcode in Hrun.
  exists (before ++ [Emit (Str "error") [error]]). split; [| split; [| split]].
  - unfold exec, onmessage, try_catch. by rewrite Hrun.
  - unfold emitted in *. by rewrite omap_app, Hem.
  - intros s c r H. apply elem_of_app in H as [H | H]; [by eapply Hclose |].
    apply list_elem_of_singleton in H. discriminate H.
  - unfold scheduled_delays. rewrite omap_app. cbn. rewrite app_nil_r.
    clear -Hharm. induction before as [|x l IH]; [done |].
    cbn in *. apply andb_true_iff in Hharm as [Hx Hl].
    destruct x; try discriminate Hx; by apply IH.
Qed.

(** A rate-limit error reaching a connected client. *)
Lemma error_frame_forwarded_witness :
  let w := run [Call_connect; SocketOpens 0]
             (constructor "sk-test" "gpt-4o-realtime-preview-2024-10-01" false) in
  let error := Object [("type", Str "rate_limit_error");
                       ("code", Str "rate_limit_exceeded")] in
  let frame := Object [("type", Str "error"); ("error", error)] in
  member frame "type" = Some (Str "error")
  ∧ is_auth_code
      (optional_member (or_else (optional_member frame "error") (Object []))
         "code") = false
  ∧ emitted (effects_of (onmessage (Some frame)) w) = [(Str "error", [error])]
  ∧ isConnected (exec (onmessage (Some frame)) w) = true.
Proof.
  cbv zeta.
  pose proof (error_frame_forwarded
    (run [Call_connect; SocketOpens 0]
       (constructor "sk-test" "gpt-4o-realtime-preview-2024-10-01" false))
    (Object [("type", Str "error");
             ("error", Object [("type", Str "rate_limit_error");
                               ("code", Str "rate_limit_exceeded")])])
    eq_refl eq_refl) as (added & Hrun & Hem & _).
  split; [reflexivity |]. split; [reflexivity |].
  split; [| by rewrite Hrun].
  rewrite (effects_of_app _ _ added); [exact Hem | by rewrite Hrun].
Defined.

(** In answer to an [error] frame the client closes the socket it holds
    exactly when the error code is [invalid_api_key] or
    [authentication_error]; it is then left disconnected, without socket
    and without session id, having emitted one [error] of type
    [authentication_error] whose message falls back to "Invalid API key". *)
Theorem error_frame_closes_iff (w : World) (data : Value) (socket : nat) :
  member data "type" = Some (Str "error") →
  ws w = Some socket →
  let error := or_else (optional_member data "error") (Object []) in
  let code := optional_member error "code" in
  let w' := exec (onmessage (Some data)) w in
  (Close socket 1000 "Client disconnect" ∈ effects_of (onmessage (Some data)) w
   ↔ is_auth_code code = true)
  ∧ (is_auth_code code = true →
     ws w' = None ∧ isConnected w' = false ∧ sessionId w' = Null
     ∧ emitted (effects_of (onmessage (Some data)) w)
       = [(Str "error",
           [Object [("type", Str "authentication_error");
                    ("message",
                     or_else (optional_member error "message")
                       (Str "Invalid API key"));
                    ("code", code)]])]).
Proof.
  intros Htype Hws error code w'.
  destruct (handleMessage_error w data Htype)
    as (before & Hem & Hharm & Hclose & Hrun).
  cbv zeta in Hrun. fold error code in Hrun.
  destruct (is_auth_code code) eqn:Hcode.
  - set (w1 := set_effects _ w) in Hrun.
    pose proof (disconnect_fields w1) as Hd. cbv zeta in Hd.
    destruct Hd as (Hret & Hws1 & Hconn & Hsess & _ & _ & _ & _ & _ & Heff).
    assert (Hw' : w' = exec disconnect w1).
    { subst w'. unfold exec, onmessage, try_catch. rewrite Hrun.
      destruct (disconnect w1) as [[[]|] ?]; [done | discriminate Hret]. }
    assert (Heffects : effects_of (onmessage (Some data)) w
      = (before
         ++ [Emit (Str "error")
               [Object [("type", Str "authentication_error");
                        ("message",
                         or_else (optional_member error "message")
                           (Str "Invalid API key"));
                        ("code", code)]]])
        ++ match reconnectTimer w with
           | Some t => [ClearTimeout t]
           | None => []
           end
        ++ [Close socket 1000 "Client disconnect"]).
    { apply effects_of_app. fold w'. rewrite Hw', Heff. subst w1. cbn.
      rewrite Hws. by rewrite <- !app_assoc. }
    split; [split; [done |] |].
    + intros _. rewrite Heffects, !elem_of_app. right. right. left.
    + intros _. rewrite Hw'. repeat split; try done.
      rewrite Heffects. unfold emitted in *. rewrite !omap_app, Hem.
      by destruct (reconnectTimer w).
  - split; [| done]. split; [| done].
    assert (Heffects : effects_of (onmessage (Some data)) w
                       = before ++ [Emit (Str "error") [error]]).
    { apply effects_of_app. unfold exec, onmessage, try_catch.
      by rewrite Hrun. }
    rewrite Heffects. intros H. apply elem_of_app in H as [H | H].
    + by apply Hclose in H.
    + apply list_elem_of_singleton in H. discriminate H.
Qed.

(** The second authentication code, on a frame without message. *)
Lemma error_frame_closes_iff_witness :
  let w := run [Call_connect; SocketOpens 0]
             (constructor "sk-test" "gpt-4o-realtime-preview-2024-10-01" false) in
  let frame := Object [("type", Str "error");
                       ("error", Object [("code", Str "authentication_error")])] in
  member frame "type" = Some (Str "error")
  ∧ ws w = Some 0
  ∧ Close 0 1000 "Client disconnect" ∈ effects_of (onmessage (Some frame)) w
  ∧ isConnected (exec (onmessage (Some frame)) w) = false.
Proof.
  cbv zeta.
  pose proof (error_frame_closes_iff
    (run [Call_connect; SocketOpens 0]
       (constructor "sk-test" "gpt-4o-realtime-preview-2024-10-01" false))
    (Object [("type", Str "error");
             ("error", Object [("code", Str "authentication_error")])])
    0 eq_refl eq_refl) as H.
  cbv zeta in H. destruct H as ([_ H1] & H2).
  split; [reflexivity |]. split; [reflexivity |].
  split; [by apply H1 | by apply H2].
Defined.


Lemma is_string_true (v : Value) (literal : string) :
  is_string v literal = true → v = Str literal.
Proof.
  destruct v; try discriminate. cbn. intros H.
  by apply String.eqb_eq in H as ->.
Qed.

(** Every parsed frame with a truthy [type] leaves [handleMessage] as
    exactly one emitted event, under the name [emitted_as] gives: the
    frame's own type, but for the two transcription and the two speech
    events, which are shortened to [transcription.completed],
    [transcription.failed], [speech.started] and [speech.stopped]; nothing
    is emitted under the upstream names of these four.  Unless the frame
    is an [error], the socket held and the connection flag are as
    before. *)
Theorem typed_frame_emitted_once (w : World) (data type : Value) :
  member data "type" = Some type →
  truthy type = true →
  let w' := exec (handleMessage data) w in
  (∃ payload,
     emitted (effects_of (handleMessage data) w) = [(emitted_as type, [payload])])
  ∧ (is_string type "error" = false →
     ws w' = ws w ∧ isConnected w' = isConnected w ∧ timers w' = timers w).
Proof.
  intros Htype Htruthy.
  destruct (is_string type "error") eqn:Herr.
  - (* error frames *)
    apply is_string_true in Herr. subst type. split; [| done].
    destruct (handleMessage_error w data Htype)
      as (before & Hem & _ & _ & Hrun).
    cbv zeta in Hrun.
    destruct (is_auth_code _).
    + set (w1 := set_effects _ w) in Hrun.
      pose proof (disconnect_fields w1) as Hd. cbv zeta in Hd.
      destruct Hd as (_ & _ & _ & _ & _ & _ & _ & _ & _ & Heff).
      eexists. rewrite (effects_of_app _ _ _ ltac:(
        unfold exec; rewrite Hrun; fold (exec disconnect w1);
        rewrite Heff; subst w1; cbn; rewrite <- !app_assoc; reflexivity)).
      unfold emitted in *. rewrite !omap_app, Hem. cbn.
      by destruct (reconnectTimer w), (ws w).
    + eexists. rewrite (effects_of_app _ _ _ ltac:(
        unfold exec; rewrite Hrun; reflexivity)).
      unfold emitted in *. by rewrite omap_app, Hem.
  - (* every other frame *)
    assert (Hprops : ∃ props, data = Object props).
    { destruct data; try discriminate Htype; eauto;
        injection Htype as <-; discriminate Htruthy. }
    destruct Hprops as [props ->]. cbn in Htype. injection Htype as Htype.
    unfold handleMessage, get, switch, message_cases. cbn [member].
    rewrite Htype. plumb. cbn -[is_string emitted_as].
    rewrite Htruthy, Herr. cbn -[is_string emitted_as].
    repeat
      match goal with
      | |- context [is_string type ?s] =>
          let E := fresh "E" in
          destruct (is_string type s) eqn:E;
          [apply is_string_true in E; subst type |]
      end;
      cbn -[is_string emitted_as];
      (destruct (debug w) eqn:Ed; cbn -[is_string emitted_as];
       rewrite <- ?app_assoc, ?drop_app_length; cbn -[is_string emitted_as];
       (split; [eexists; unfold emitted_as; cbn -[is_string];
                rewrite ?E, ?E0, ?E1, ?E2, ?E3, ?E4, ?E5, ?E6, ?E7, ?E8, ?E9,
                  ?E10, ?E11, ?E12, ?E13, ?E14, ?E15, ?E16, ?E17, ?E18;
                reflexivity
               | intros _; repeat split; reflexivity])).
Qed.

(** A speech-start notice: emitted under the short name only. *)
Lemma typed_frame_emitted_once_witness :
  let w := run [Call_connect; SocketOpens 0]
             (constructor "sk-test" "gpt-4o-realtime-preview-2024-10-01" false) in
  let frame := Object [("type", Str "input_audio_buffer.speech_started");
                       ("audio_start_ms", Number 120)] in
  member frame "type" = Some (Str "input_audio_buffer.speech_started")
  ∧ truthy (Str "input_audio_buffer.speech_started") = true
  ∧ ∃ payload,
      emitted (effects_of (handleMessage frame) w)
      = [(Str "speech.started", [payload])].
Proof.
  cbv zeta.
  pose proof (typed_frame_emitted_once
    (run [Call_connect; SocketOpens 0]
       (constructor "sk-test" "gpt-4o-realtime-preview-2024-10-01" false))
    (Object [("type", Str "input_audio_buffer.speech_started");
             ("audio_start_ms", Number 120)])
    (Str "input_audio_buffer.speech_started") eq_refl eq_refl) as H.
  cbv zeta in H. destruct H as [[payload H] _].
  split; [reflexivity |]. split; [reflexivity |].
  exists payload. exact H.
Defined.

End BrowserMore.
